(** * alerting-ml: segment-level anomaly verdicts and anomaly intervals

    A shallow embedding of [services/alerting-ml-python/app/api.py] and
    [services/alerting-ml-python/app/isoforest_detect.py], and the
    properties of the detection pipeline

      raw points -> point scorer -> segment aggregator -> interval extractor.

    Python [int] is [Z]; Python [float] is an IEEE-754 binary64 value, taken
    from the Standard Library's [spec_float]; Python [str] is [string];
    a Python [list] is a [list], indexed with stdpp's lookup.  A Python
    exception is a value of [exn] carried by the [pyresult] monad.  The two
    libraries the code calls, pandas' [sort_values] and scikit-learn's
    [IsolationForest], are parameters of the pipeline.

    The module [Relay] embeds the webhook receiver of
    [internal/prometheus_adapter/simple_webhook_server.py]. *)

From Stdlib Require Import ZArith Lia Bool String List.
From Stdlib Require Import Floats.SpecFloat.
From stdpp Require Import base tactics option list.

Local Open Scope string_scope.
Local Open Scope Z_scope.

(** ** Exceptions *)

(** [HTTPException] is fastapi's; every other exception class of the run
    (ValueError, ZeroDivisionError, IndexError, ...) is a [PyException]
    with its class name and its message, [str(e)]. *)
Inductive exn : Type :=
| HTTPException (status_code : Z) (detail : string)
| PyException (cls : string) (msg : string).

(** The outcome of running a piece of Python: a value, a raised exception,
    or [OutOfFuel] when a [while] loop was cut off by the bound the model
    puts on its iterations (no exception handler sees that one). *)
Inductive pyresult (A : Type) : Type :=
| Ok (a : A)
| Raise (e : exn)
| OutOfFuel.
Arguments Ok {A} a.
Arguments Raise {A} e.
Arguments OutOfFuel {A}.

Definition bind {A B : Type} (m : pyresult A) (k : A -> pyresult B) : pyresult B :=
  match m with
  | Ok a => k a
  | Raise e => Raise e
  | OutOfFuel => OutOfFuel
  end.

Notation "'do' x <- m ; k" := (bind m (fun x => k))
  (at level 10, x name, m at level 100, k at level 200).

(** ** Binary64 floats *)

Module PyFloat.

Definition prec : Z := 53.
Definition emax : Z := 1024.

Definition float : Type := spec_float.

(** [x >= y] on floats: false as soon as one side is NaN. *)
Definition float_ge (x y : float) : bool := SFleb y x.
Definition float_le (x y : float) : bool := SFleb x y.

Definition zero : float := S754_zero false.
Definition one : float := S754_finite false 4503599627370496 (-52).

(** The integer [n] as a float, for [0 <= |n| < 2^53] exactly. *)
Definition of_Z (n : Z) : float := binary_normalize prec emax n 0 false.

(** Round-half-even of the exact quotient [n / d], for [0 <= n], [0 < d]. *)
Definition rne_div (n d : Z) : Z :=
  let q := n / d in
  let r := n mod d in
  match 2 * r ?= d with
  | Lt => q
  | Gt => q + 1
  | Eq => if Z.even q then q else q + 1
  end.

(** [floor (log2 (a / b))] for [0 < a], [0 < b]. *)
Definition quot_log2 (a b : Z) : Z :=
  let e0 := Z.log2 a - Z.log2 b in
  if b * 2 ^ Z.max e0 0 <=? a * 2 ^ Z.max (- e0) 0 then e0 else e0 - 1.

(** The exponent of the last place of the binary64 format at magnitude
    [2^e]: 53 significant bits, and never below the subnormal [2^-1074]. *)
Definition ulp_exp (e : Z) : Z := Z.max (e - 52) (-1074).

(** The float of sign [s] and value [m * 2^k], for [0 <= m <= 2^53] that
    came out of a rounding at exponent [k]: a carry to [2^53] moves to the
    next binade. *)
Definition pack (s : bool) (m k : Z) : float :=
  match m with
  | Zpos p =>
      if m =? 2 ^ 53 then S754_finite s (Z.to_pos (2 ^ 52)) (k + 1)
      else S754_finite s p k
  | _ => S754_zero s
  end.

(** Python's [a / b] on two [int]s (CPython's [long_true_divide]): the
    binary64 nearest to the exact quotient, ties to even;
    [ZeroDivisionError] for [b = 0] and [OverflowError] when the rounded
    quotient exceeds the largest float.  On operands below [2^53] it is the
    IEEE-754 division of the two integers as floats ([int_truediv_SFdiv]). *)
Definition int_truediv (a b : Z) : pyresult float :=
  if b =? 0 then Raise (PyException "ZeroDivisionError" "division by zero")
  else
    let s := xorb (a <? 0) (b <? 0) in
    if a =? 0 then Ok (S754_zero (b <? 0))
    else
      let n := Z.abs a in
      let d := Z.abs b in
      let k := ulp_exp (quot_log2 n d) in
      let m := rne_div (n * 2 ^ Z.max (- k) 0) (d * 2 ^ Z.max k 0) in
      let r := pack s m k in
      match r with
      | S754_finite _ _ e =>
          if e <=? emax - prec then Ok r
          else Raise (PyException "OverflowError"
                        "integer division result too large for a float")
      | _ => Ok r
      end.

End PyFloat.

Import PyFloat.


(** ** Data model *)

(** [isoforest_detect.PointAnomaly]. *)
Record PointAnomaly : Type := mkPointAnomaly {
  pa_timestamp : string;
  pa_value : float;
  pa_score : float;
  pa_is_anomaly : bool
}.

(** One dict of [anomalies_to_json]: the keys "timestamp", "value", "score"
    and "is_anomaly", with a [str], two [float]s and a [bool]. *)
Record PointResult : Type := mkPointResult {
  timestamp : string;
  value : float;
  score : float;
  is_anomaly : bool
}.

Record Rules : Type := mkRules {
  rule_ratio_threshold : float;
  rule_streak_threshold : Z
}.

(** The dict [_segment_summary] returns; a key the dict does not have is
    [None]. *)
Record SegmentSummary : Type := mkSegmentSummary {
  is_segment_anomaly : bool;
  reason : option string;
  anomaly_ratio : option float;
  max_consecutive_anomaly : option Z;
  rules : Rules
}.

(** The dict [{"start": ..., "end": ...}] of [_extract_anomaly_intervals]. *)
Record Interval : Type := mkInterval {
  iv_start : string;
  iv_end : string
}.

Record Metadata : Type := mkMetadata {
  alert_name : option string;
  severity : option string;
  labels : list (string * string)
}.

Record DataPoint : Type := mkDataPoint {
  dp_timestamp : string;
  dp_value : float
}.

Record DetectRequest : Type := mkDetectRequest {
  metadata : option Metadata;
  data : list DataPoint;
  contamination : float;
  random_state : Z;
  ratio_threshold : float;
  streak_threshold : Z
}.

Record Anomaly : Type := mkAnomaly {
  start : string;
  end_ : string
}.

Record DetectResponse : Type := mkDetectResponse {
  resp_metadata : option Metadata;
  anomalies : list Anomaly
}.

Definition len {A : Type} (l : list A) : Z := Z.of_nat (length l).

(** ** Segment aggregator: [_segment_summary] *)

(** [sum(anomaly_flags)]: [True] counts 1 and [False] 0, from 0, left to
    right. *)
Definition sum_flags (anomaly_flags : list bool) : Z :=
  fold_left (fun acc flag => acc + Z.b2z flag) anomaly_flags 0.

(** One turn of the [for flag in anomaly_flags] loop on the pair
    [(max_streak, current_streak)]. *)
Definition streak_step (st : Z * Z) (flag : bool) : Z * Z :=
  let '(max_streak, current_streak) := st in
  if flag then
    let current_streak := current_streak + 1 in
    (Z.max max_streak current_streak, current_streak)
  else (max_streak, 0).

Definition streak_loop (anomaly_flags : list bool) : Z * Z :=
  fold_left streak_step anomaly_flags (0, 0).

Definition _segment_summary (point_results : list PointResult)
    (ratio_threshold : float) (streak_threshold : Z) : pyresult SegmentSummary :=
  let total := len point_results in
  if total =? 0 then
    Ok {| is_segment_anomaly := false;
          reason := Some "empty";
          anomaly_ratio := None;
          max_consecutive_anomaly := None;
          rules := mkRules ratio_threshold streak_threshold |}
  else
    let anomaly_flags := map is_anomaly point_results in
    do ratio <- int_truediv (sum_flags anomaly_flags) total;
    let max_streak := fst (streak_loop anomaly_flags) in
    let is_anom := float_ge ratio ratio_threshold || (max_streak >=? streak_threshold) in
    Ok {| is_segment_anomaly := is_anom;
          reason := None;
          anomaly_ratio := Some ratio;
          max_consecutive_anomaly := Some max_streak;
          rules := mkRules ratio_threshold streak_threshold |}.

(** ** Interval extractor: [_extract_anomaly_intervals] *)

(** [point_results[i]], for [0 <= i]. *)
Definition getitem {A : Type} (l : list A) (i : nat) : pyresult A :=
  match l !! i with
  | Some x => Ok x
  | None => Raise (PyException "IndexError" "list index out of range")
  end.

(** The inner loop
    [while i < n and bool(point_results[i].get("is_anomaly")): i += 1];
    it returns the final [i]. *)
Fixpoint run_while (fuel : nat) (point_results : list PointResult) (n i : nat)
    : pyresult nat :=
  match fuel with
  | O => OutOfFuel
  | S fuel' =>
      if (i <? n)%nat then
        do item <- getitem point_results i;
        if is_anomaly item then run_while fuel' point_results n (i + 1)%nat
        else Ok i
      else Ok i
  end.

(** The outer loop [while i < n], on the state [(i, intervals)], with what
    it appends passed as [emit start_idx end_idx]. *)
Fixpoint scan_while {R : Type}
    (emit : list PointResult -> nat -> nat -> pyresult R)
    (fuel : nat) (point_results : list PointResult) (n i : nat)
    (intervals : list R) : pyresult (list R) :=
  match fuel with
  | O => OutOfFuel
  | S fuel' =>
      if (i <? n)%nat then
        do item <- getitem point_results i;
        if negb (is_anomaly item) then
          scan_while emit fuel' point_results n (i + 1)%nat intervals
        else
          let start_idx := i in
          do i <- run_while fuel point_results n i;
          let end_idx := (i - 1)%nat in
          do iv <- emit point_results start_idx end_idx;
          scan_while emit fuel' point_results n i (intervals ++ [iv])
      else Ok intervals
  end.

(** The dict the loop appends: the timestamps at [start_idx] and [end_idx]
    ([str] of a [str] is that string). *)
Definition emit_interval (point_results : list PointResult)
    (start_idx end_idx : nat) : pyresult Interval :=
  do a <- getitem point_results start_idx;
  let start_ts := timestamp a in
  do b <- getitem point_results end_idx;
  let end_ts := timestamp b in
  Ok (mkInterval start_ts end_ts).

(** Every turn of either loop moves [i] forward, so [n + 1] turns are
    enough (see [extract_terminates]). *)
Definition _extract_anomaly_intervals (point_results : list PointResult)
    : pyresult (list Interval) :=
  let n := length point_results in
  scan_while emit_interval (S n) point_results n 0%nat [].

(** The same scan, keeping the indices [(start_idx, end_idx)] of each run
    instead of their timestamps. *)
Definition emit_indices (point_results : list PointResult)
    (start_idx end_idx : nat) : pyresult (nat * nat) :=
  Ok (start_idx, end_idx).

Definition extract_index_runs (point_results : list PointResult)
    : pyresult (list (nat * nat)) :=
  let n := length point_results in
  scan_while emit_indices (S n) point_results n 0%nat [].

(** ** Point scorer and the [detect] endpoint *)

(** A pandas [DataFrame] of observations: its column labels and its rows. *)
Record DataFrame : Type := mkDataFrame {
  columns : list string;
  rows : list DataPoint
}.

(** [pd.DataFrame(records)] for a list of dicts with the keys "timestamp"
    and "value": the columns are the keys met, so none for no record. *)
Definition pd_DataFrame (records : list DataPoint) : DataFrame :=
  {| columns := match records with
                | [] => []
                | _ :: _ => ["timestamp"; "value"]
                end;
     rows := records |}.

(** [set(names).issubset(df.columns)]. *)
Definition issubset (names : list string) (cols : list string) : bool :=
  forallb (fun c => existsb (String.eqb c) cols) names.

(** [df[name]], a [KeyError] for a label the frame does not have. *)
Definition getcol {A : Type} (df : DataFrame) (name : string)
    (field : DataPoint -> A) : pyresult (list A) :=
  if existsb (String.eqb name) (columns df) then Ok (map field (rows df))
  else Raise (PyException "KeyError" ("'" ++ name ++ "'")).

(** [zip(a, b, c, d)]: as long as the shortest of the four. *)
Fixpoint zip4 {A B C D : Type} (a : list A) (b : list B) (c : list C)
    (d : list D) : list (A * B * C * D) :=
  match a, b, c, d with
  | x :: a', y :: b', z :: c', w :: d' => (x, y, z, w) :: zip4 a' b' c' d'
  | _, _, _, _ => []
  end.

Definition anomalies_to_json (anomalies : list PointAnomaly) : list PointResult :=
  map (fun a => {| timestamp := pa_timestamp a;
                   value := pa_value a;
                   score := pa_score a;
                   is_anomaly := pa_is_anomaly a |}) anomalies.

(** The components of the pipeline, as entries of a call log. *)
Inductive component : Type :=
| PointScorer
| SegmentAggregator
| IntervalExtractor.

(** A computation with the log of the components it called. *)
Definition traced (A : Type) : Type := list component * pyresult A.

Definition tret {A : Type} (a : A) : traced A := ([], Ok a).

Definition traise {A : Type} (e : exn) : traced A := ([], Raise e).

Definition call {A : Type} (c : component) (r : pyresult A) : traced A := ([c], r).

Definition tbind {A B : Type} (m : traced A) (k : A -> traced B) : traced B :=
  match m with
  | (log, Ok a) => let '(log', r) := k a in ((log ++ log')%list, r)
  | (log, Raise e) => (log, Raise e)
  | (log, OutOfFuel) => (log, OutOfFuel)
  end.

Notation "'tdo' x <- m ; k" := (tbind m (fun x => k))
  (at level 10, x name, m at level 100, k at level 200).

(** [try: ... except HTTPException: raise
     except Exception as e: raise HTTPException(500, f"detection failed: {e}")]. *)
Definition detect_handlers {A : Type} (m : traced A) : traced A :=
  match m with
  | (log, Raise (PyException _ msg)) =>
      (log, Raise (HTTPException 500 ("detection failed: " ++ msg)))
  | _ => m
  end.

Section Pipeline.

(** pandas: the rows of [df.sort_values("timestamp").reset_index(drop=True)]. *)
Variable sort_values : list DataPoint -> list DataPoint.

(** scikit-learn: [IsolationForest(n_estimators, contamination,
    random_state, max_samples, n_jobs=-1)], fitted on the column of values,
    then [predict] (labels 1 and -1) and [decision_function] on the same
    column; or the exception the library raises. *)
Variable IsolationForest :
  forall (n_estimators : Z) (contamination : float) (random_state : Z)
         (max_samples : string + Z) (values : list float),
    pyresult (list Z * list float).

Definition detect_point_anomalies (values : list float) (contamination : float)
    (random_state : Z) (n_estimators : Z) (max_samples : string + Z)
    : pyresult (list Z * list float) :=
  IsolationForest n_estimators contamination random_state max_samples values.

Definition run_isolation_forest (df : DataFrame) (contamination : float)
    (random_state : Z) : pyresult (list PointAnomaly) :=
  do values <- getcol df "value" dp_value;
  do ps <- detect_point_anomalies values contamination random_state
             200 (inl "auto");
  let '(pred_labels, scores) := ps in
  do timestamps <- getcol df "timestamp" dp_timestamp;
  Ok (map (fun '(ts, val, score, label) =>
             mkPointAnomaly ts val score (label =? -1))
          (zip4 timestamps values scores pred_labels)).

Definition detect (req : DetectRequest) : traced DetectResponse :=
  detect_handlers (
    let df := pd_DataFrame (data req) in
    if negb (issubset ["timestamp"; "value"] (columns df)) then
      traise (HTTPException 400 "data points must include timestamp and value")
    else
      let df := mkDataFrame (columns df) (sort_values (rows df)) in
      tdo anomalies <- call PointScorer
          (run_isolation_forest df (contamination req) (random_state req));
      let point_json := anomalies_to_json anomalies in
      tdo seg <- call SegmentAggregator
          (_segment_summary point_json (ratio_threshold req) (streak_threshold req));
      tdo intervals <-
          (if is_segment_anomaly seg
           then call IntervalExtractor (_extract_anomaly_intervals point_json)
           else tret []);
      tret {| resp_metadata := metadata req;
              anomalies := map (fun iv => mkAnomaly (iv_start iv) (iv_end iv))
                               intervals |}).

(** The value of [point_json] in [detect]. *)
Definition scored_points (req : DetectRequest) : pyresult (list PointResult) :=
  do anomalies <- run_isolation_forest
      (mkDataFrame ["timestamp"; "value"] (sort_values (data req)))
      (contamination req) (random_state req);
  Ok (anomalies_to_json anomalies).

End Pipeline.

(** ** Specification-level notions *)

(** The number of points with [is_anomaly] true. *)
Definition count_flagged (point_results : list PointResult) : Z :=
  len (List.filter is_anomaly point_results).

(** The running counter of the scan after its first [k] points: back to 0
    on a non-flagged point, one more on a flagged one. *)
Fixpoint running_counter (flags : list bool) (k : nat) : Z :=
  match k with
  | O => 0
  | S k' =>
      match flags !! k' with
      | Some true => running_counter flags k' + 1
      | _ => 0
      end
  end.

(** The largest value the running counter takes over the whole scan. *)
Definition max_running_counter (flags : list bool) : Z :=
  fold_right Z.max 0 (map (running_counter flags) (seq 0 (S (length flags)))).

(** The [k] points from index [s] on exist and are all flagged. *)
Definition flagged_run (point_results : list PointResult) (s k : nat) : Prop :=
  forall j : nat, (s <= j < s + k)%nat ->
    is_anomaly <$> point_results !! j = Some true.


(** The value of a non-negative float in units of [2^-1074], the smallest
    positive binary64 magnitude. *)
Definition sf_val (f : float) : Z :=
  match f with
  | S754_finite false m e => Zpos m * 2 ^ (e + 1074)
  | _ => 0
  end.

(** The non-negative binary64 numbers in canonical form: zero, a
    subnormal (exponent -1074, fewer than 53 bits) or a normal number
    (exactly 53 bits). *)
Definition nonneg_canonical (f : float) : Prop :=
  match f with
  | S754_zero _ => True
  | S754_finite false m e =>
      -1074 <= e /\ Zpos m < 2 ^ 53 /\ (e = -1074 \/ 2 ^ 52 <= Zpos m)
  | _ => False
  end.

(** Exponent and integer significand of the rounded quotient [a / b], for
    [0 < a <= b]. *)
Definition div_exp (a b : Z) : Z := ulp_exp (quot_log2 a b).

Definition div_mant (a b : Z) : Z := rne_div (a * 2 ^ (- div_exp a b)) b.


(** ** Sample data *)

(** Some binary64 constants: the floats Python reads from the literals
    0.05, 0.2, 0.5, 0.7, 2.0 and 100.0. *)
Definition f64_0_05 : float := S754_finite false 7205759403792794 (-57).
Definition f64_0_2 : float := S754_finite false 7205759403792794 (-55).
Definition f64_0_5 : float := S754_finite false 4503599627370496 (-53).
Definition f64_0_7 : float := S754_finite false 6305039478318694 (-53).
Definition f64_2 : float := S754_finite false 4503599627370496 (-51).
Definition f64_100 : float := S754_finite false 7036874417766400 (-46).

(** A point result with the given timestamp and flag. *)
Definition point (ts : string) (flag : bool) : PointResult :=
  {| timestamp := ts; value := one; score := zero; is_anomaly := flag |}.

(** Ten points, three of them flagged in a row: a ratio of 0.3 and a
    longest run of 3. *)
Definition sample_streak : list PointResult :=
  [point "t0" false; point "t1" true; point "t2" true; point "t3" true;
   point "t4" false; point "t5" false; point "t6" false; point "t7" false;
   point "t8" false; point "t9" false].

(** Four points, every other one flagged: a ratio of 0.5 and a longest run
    of 1. *)
Definition sample_diffuse : list PointResult :=
  [point "t0" true; point "t1" false; point "t2" true; point "t3" false].

(** Five points, one flagged: a ratio of 0.2. *)
Definition sample_fifth : list PointResult :=
  [point "t0" false; point "t1" false; point "t2" true; point "t3" false;
   point "t4" false].

(** The flags F,F,T,T,F,T,F,F,T,T,T at the timestamps t0..t10. *)
Definition sample_runs : list PointResult :=
  [point "t0" false; point "t1" false; point "t2" true; point "t3" true;
   point "t4" false; point "t5" true; point "t6" false; point "t7" false;
   point "t8" true; point "t9" true; point "t10" true].


(** ** Runs of flagged points *)

(** The flag at index [i], false past the end of the sequence. *)
Definition flag_at (point_results : list PointResult) (i : nat) : bool :=
  match point_results !! i with
  | Some p => is_anomaly p
  | None => false
  end.

(** The timestamp at index [i]. *)
Definition timestamp_at (point_results : list PointResult) (i : nat) : string :=
  match point_results !! i with
  | Some p => timestamp p
  | None => ""
  end.

(** [s..e] is a maximal run of consecutive flagged points: every point of
    it is flagged, and it can be extended neither to the left nor to the
    right. *)
Definition maximal_run (point_results : list PointResult) (s e : nat) : Prop :=
  (s <= e < length point_results)%nat /\
  (forall j : nat, (s <= j <= e)%nat -> flag_at point_results j = true) /\
  (s = 0%nat \/ flag_at point_results (s - 1) = false) /\
  flag_at point_results (S e) = false.

(** The interval of the run [s..e]: the timestamps of its first and of its
    last point. *)
Definition interval_of (point_results : list PointResult) (r : nat * nat) : Interval :=
  mkInterval (timestamp_at point_results (fst r)) (timestamp_at point_results (snd r)).

(** [Runs pr i runs]: reading the sequence from index [i] on, the runs of
    flagged points met are [runs], in this order. *)
Inductive Runs (pr : list PointResult) : nat -> list (nat * nat) -> Prop :=
| Runs_done (i : nat) :
    (length pr <= i)%nat -> Runs pr i []
| Runs_skip (i : nat) (runs : list (nat * nat)) :
    (i < length pr)%nat -> flag_at pr i = false ->
    Runs pr (S i) runs -> Runs pr i runs
| Runs_emit (i e : nat) (runs : list (nat * nat)) :
    (i <= e < length pr)%nat ->
    (forall j : nat, (i <= j <= e)%nat -> flag_at pr j = true) ->
    flag_at pr (S e) = false ->
    Runs pr (S e) runs -> Runs pr i ((i, e) :: runs).

(** The runs lie one after the other from [lo] on, with at least one index
    between two of them. *)
Fixpoint ascending (lo : nat) (runs : list (nat * nat)) : Prop :=
  match runs with
  | [] => True
  | (s, e) :: rest => (lo <= s <= e)%nat /\ ascending (e + 2) rest
  end.


(** The rest of [detect] once [point_json] is known. *)
Definition detect_after_scoring (req : DetectRequest) (point_json : list PointResult)
    : traced DetectResponse :=
  tdo seg <- call SegmentAggregator
      (_segment_summary point_json (ratio_threshold req) (streak_threshold req));
  tdo intervals <-
      (if is_segment_anomaly seg
       then call IntervalExtractor (_extract_anomaly_intervals point_json)
       else tret []);
  tret {| resp_metadata := metadata req;
          anomalies := map (fun iv => mkAnomaly (iv_start iv) (iv_end iv))
                           intervals |}.

(** ** [repr] of a float

    The text Python prints for a float, which scikit-learn quotes in the
    message of its parameter check. *)

(** The decimal digits of a natural number, [str(n)]. *)
Fixpoint digits_fuel (fuel : nat) (n : Z) (acc : string) : string :=
  match fuel with
  | O => acc
  | S fuel' =>
      let acc' := String (Ascii.ascii_of_nat (48 + Z.to_nat (n mod 10))) acc in
      if n <? 10 then acc' else digits_fuel fuel' (n / 10) acc'
  end.

Definition str_of_nat (n : Z) : string :=
  digits_fuel (S (Z.to_nat (Z.log2 n))) n "".

Fixpoint zeros (n : nat) : string :=
  match n with
  | O => ""
  | S n' => "0" ++ zeros n'
  end.

(** [d * 10^k] read as a float, [float(str)]: the nearest binary64, ties
    to even (a decimal too large for a float fails here and reads as [inf]
    in Python; neither is a finite float). *)
Definition read_decimal (d k : Z) : pyresult float :=
  int_truediv (d * 10 ^ Z.max k 0) (10 ^ Z.max (- k) 0).

Definition reads_back (x : float) (d k : Z) : bool :=
  match read_decimal d k with
  | Ok f => SFeqb f x
  | _ => false
  end.

(** The shortest decimal [d * 10^k] that reads back as the positive float
    [x = num / den], tried with [len], [len + 1], ... digits: of the two
    decimals of that length around [x], one that reads back, the closer
    one if both do.  [q] holds the first [l] digits of [x], and [decpt]
    is the position of its decimal point. *)
Fixpoint shortest_fuel (fuel : nat) (x : float) (num den q l decpt len : Z) : Z * Z :=
  let k := decpt - len in
  let lo := q / 10 ^ (l - len) in
  let hi := lo + 1 in
  match fuel with
  | O => (lo, k)
  | S fuel' =>
      let lo_closer :=
        match 2 * num * 10 ^ Z.max (- k) 0 ?= (2 * lo + 1) * den * 10 ^ Z.max k 0 with
        | Lt => true
        | Gt => false
        | Eq => Z.even lo
        end in
      match reads_back x lo k, reads_back x hi k with
      | true, true => if lo_closer then (lo, k) else (hi, k)
      | true, false => (lo, k)
      | false, true => (hi, k)
      | false, false => shortest_fuel fuel' x num den q l decpt (len + 1)
      end
  end.

Fixpoint strip_zeros (fuel : nat) (d k : Z) : Z * Z :=
  match fuel with
  | O => (d, k)
  | S fuel' =>
      if (0 <? d) && (d mod 10 =? 0) then strip_zeros fuel' (d / 10) (k + 1)
      else (d, k)
  end.

Definition shortest_decimal (m : positive) (e : Z) : Z * Z :=
  let num := Zpos m * 2 ^ Z.max e 0 in
  let den := 2 ^ Z.max (- e) 0 in
  let s := 18 - (Z.log2 (Zpos m) + e) * 30103 / 100000 in
  let q := (num * 10 ^ Z.max s 0) / (den * 10 ^ Z.max (- s) 0) in
  let l := Z.of_nat (String.length (str_of_nat q)) in
  let '(d, k) := shortest_fuel 17 (S754_finite false m e) num den q l (l - s) 1 in
  strip_zeros 20 d k.

(** [repr(x)]: the shortest digits that read back as [x], in exponent
    notation when the decimal point would fall more than 16 digits to the
    right of the first digit or more than 3 zeros to its left. *)
Definition float_repr (x : float) : string :=
  match x with
  | S754_nan => "nan"
  | S754_infinity s => if s then "-inf" else "inf"
  | S754_zero s => if s then "-0.0" else "0.0"
  | S754_finite s m e =>
      let '(d, k) := shortest_decimal m e in
      let digits := str_of_nat d in
      let n := String.length digits in
      let decpt := Z.of_nat n + k in
      (if s then "-" else "") ++
      (if (decpt <? -3) || (16 <? decpt) then
         substring 0 1 digits ++
         (if (1 <? n)%nat then "." ++ substring 1 (n - 1) digits else "") ++
         "e" ++ (if decpt - 1 <? 0 then "-" else "+") ++
         (if Z.abs (decpt - 1) <? 10 then "0" else "") ++ str_of_nat (Z.abs (decpt - 1))
       else if decpt <=? 0 then "0." ++ zeros (Z.to_nat (- decpt)) ++ digits
       else if decpt <? Z.of_nat n then
         substring 0 (Z.to_nat decpt) digits ++ "." ++
         substring (Z.to_nat decpt) (n - Z.to_nat decpt) digits
       else digits ++ zeros (Z.to_nat decpt - n) ++ ".0")
  end.

(** ** Sample instances of the libraries *)

(** Rows sorted by timestamp, by insertion; strings compare byte by byte
    as Python's compare code point by code point. *)
Fixpoint insert_by_timestamp (p : DataPoint) (l : list DataPoint) : list DataPoint :=
  match l with
  | [] => [p]
  | q :: l' =>
      if String.leb (dp_timestamp p) (dp_timestamp q) then p :: l
      else q :: insert_by_timestamp p l'
  end.

Definition sort_by_timestamp (l : list DataPoint) : list DataPoint :=
  fold_right insert_by_timestamp [] l.

(** An instance of the [IsolationForest] parameter for the sample runs.
    It checks what scikit-learn's estimator checks in [fit], in the
    library's order and with the library's messages: the parameter
    [contamination], which must lie in (0, 0.5], then the number of
    samples, which must be at least 1.  Like the library it lets a NaN or
    an infinity among the values through.  The labels are a rule of this
    instance, not the library's model: -1 for the values of at least
    100.0, with a negative score.  The theorems on [detect] hold for every
    instance; this one runs the examples. *)
Definition threshold_forest (n_estimators : Z) (contamination : float)
    (random_state : Z) (max_samples : string + Z) (values : list float)
    : pyresult (list Z * list float) :=
  if negb (SFltb zero contamination && SFleb contamination f64_0_5) then
    Raise (PyException "InvalidParameterError"
             ("The 'contamination' parameter of IsolationForest must be a str among {'auto'} or a float in the range (0.0, 0.5]. Got "
              ++ float_repr contamination ++ " instead."))
  else
    match values with
    | [] => Raise (PyException "ValueError"
                     "Found array with 0 sample(s) (shape=(0, 1)) while a minimum of 1 is required by IsolationForest.")
    | _ :: _ =>
        Ok (map (fun v => if SFleb f64_100 v then -1 else 1) values,
            map (fun v => if SFleb f64_100 v then SFopp f64_0_05 else f64_0_05) values)
    end.

(** Requests: four observations with two outliers side by side (given out
    of order), the same under a contamination of 0.7, the same with a NaN
    among the values, four ordinary observations, and no observation. *)
Definition sample_request : DetectRequest :=
  {| metadata := Some (mkMetadata (Some "latency") (Some "P1") [("service", "s3")]);
     data := [mkDataPoint "2025-01-01T00:03" f64_100; mkDataPoint "2025-01-01T00:01" one;
              mkDataPoint "2025-01-01T00:02" f64_100; mkDataPoint "2025-01-01T00:04" f64_2];
     contamination := f64_0_05;
     random_state := 42;
     ratio_threshold := f64_0_2;
     streak_threshold := 20 |}.

Definition sample_request_contamination : DetectRequest :=
  {| metadata := None;
     data := data sample_request;
     contamination := f64_0_7;
     random_state := 42;
     ratio_threshold := f64_0_2;
     streak_threshold := 20 |}.

Definition sample_request_nan : DetectRequest :=
  {| metadata := None;
     data := [mkDataPoint "2025-01-01T00:01" one; mkDataPoint "2025-01-01T00:02" S754_nan];
     contamination := f64_0_05;
     random_state := 42;
     ratio_threshold := f64_0_2;
     streak_threshold := 20 |}.

Definition sample_request_quiet : DetectRequest :=
  {| metadata := None;
     data := [mkDataPoint "2025-01-01T00:01" one; mkDataPoint "2025-01-01T00:02" f64_2;
              mkDataPoint "2025-01-01T00:03" one; mkDataPoint "2025-01-01T00:04" f64_2];
     contamination := f64_0_05;
     random_state := 42;
     ratio_threshold := f64_0_2;
     streak_threshold := 20 |}.

Definition sample_request_empty : DetectRequest :=
  {| metadata := None;
     data := [];
     contamination := f64_0_05;
     random_state := 42;
     ratio_threshold := f64_0_2;
     streak_threshold := 20 |}.


(** ** Lengths of runs *)

(** The number of points of the run [s..e]. *)
Definition run_length (r : nat * nat) : Z :=
  Z.of_nat (snd r) - Z.of_nat (fst r) + 1.

Definition sum_run_lengths (runs : list (nat * nat)) : Z :=
  fold_right (fun r acc => run_length r + acc) 0 runs.

Definition max_run_length (runs : list (nat * nat)) : Z :=
  fold_right Z.max 0 (map run_length runs).

(** ** Thresholds *)

(** The floats at or below zero: the two zeros, the negative numbers and
    minus infinity. *)
Definition float_nonpositive (f : float) : Prop :=
  match f with
  | S754_zero _ | S754_infinity true | S754_finite true _ _ => True
  | _ => False
  end.

(** The defaults of [api.py]: [DEFAULT_RATIO_THRESHOLD = 0.20] and
    [DEFAULT_STREAK_THRESHOLD = 20]. *)
Definition DEFAULT_RATIO_THRESHOLD : float := f64_0_2.
Definition DEFAULT_STREAK_THRESHOLD : Z := 20.

(** ** The webhook relay: [internal/prometheus_adapter/simple_webhook_server.py] *)

Module Relay.

(** The server handles one request at a time ([HTTPServer] is not
    threaded), so the handler is a function from the buffer
    [alerts_received] and a request to the new buffer and the response. *)

(** A value of [json.loads]: [None], a [bool], an [int], a [float], a
    [str], a [list] or a [dict] with its keys in order (each key once:
    [json.loads] keeps the last of two equal keys). *)
#[warnings="-register-all"]
Inductive json : Type :=
| JNull
| JBool (b : bool)
| JInt (z : Z)
| JFloat (f : float)
| JStr (s : string)
| JList (l : list json)
| JDict (kv : list (string * json)).

(** The outcome of a piece of the handler: a value or an exception (the
    handler has no loop that needs a bound). *)
Inductive result (A : Type) : Type :=
| Return (a : A)
| Except (e : exn).
Arguments Return {A} a.
Arguments Except {A} e.

Definition rbind {A B : Type} (m : result A) (k : A -> result B) : result B :=
  match m with
  | Return a => k a
  | Except e => Except e
  end.

Notation "'rdo' x <- m ; k" := (rbind m (fun x => k))
  (at level 10, x name, m at level 100, k at level 200).

(** [type(x).__name__]. *)
Definition type_name (x : json) : string :=
  match x with
  | JNull => "NoneType"
  | JBool _ => "bool"
  | JInt _ => "int"
  | JFloat _ => "float"
  | JStr _ => "str"
  | JList _ => "list"
  | JDict _ => "dict"
  end.

Definition dict_get (kv : list (string * json)) (key : string) : option json :=
  match List.find (fun p => String.eqb (fst p) key) kv with
  | Some p => Some (snd p)
  | None => None
  end.

(** [needle in s] on two [str]s. *)
Fixpoint contains (needle s : string) : bool :=
  String.prefix needle s ||
  match s with
  | EmptyString => false
  | String _ s' => contains needle s'
  end.

(** [x == 'alerts'], as list membership tests it. *)
Definition is_alerts_str (x : json) : bool :=
  match x with
  | JStr s => String.eqb s "alerts"
  | _ => false
  end.

(** ['alerts' in data]: a key of a dict, an element of a list, a substring
    of a str, and a [TypeError] on anything else.  Messages are worded as
    CPython 3.12 words them. *)
Definition contains_alerts (data : json) : result bool :=
  match data with
  | JDict kv => Return (existsb (fun p => String.eqb (fst p) "alerts") kv)
  | JList l => Return (existsb is_alerts_str l)
  | JStr s => Return (contains "alerts" s)
  | _ => Except (PyException "TypeError"
                   ("argument of type '" ++ type_name data ++ "' is not iterable"))
  end.

(** [data['alerts']]. *)
Definition getitem_alerts (data : json) : result json :=
  match data with
  | JDict kv =>
      match dict_get kv "alerts" with
      | Some v => Return v
      | None => Except (PyException "KeyError" "'alerts'")
      end
  | JList _ =>
      Except (PyException "TypeError" "list indices must be integers or slices, not str")
  | JStr _ =>
      Except (PyException "TypeError" "string indices must be integers, not 'str'")
  | _ => Except (PyException "TypeError"
                   ("'" ++ type_name data ++ "' object is not subscriptable"))
  end.

(** The elements [for alert in x] goes through: those of a list, the keys
    of a dict, the characters of a str (here one per byte). *)
Definition iterate (x : json) : result (list json) :=
  match x with
  | JList l => Return l
  | JDict kv => Return (map (fun p => JStr (fst p)) kv)
  | JStr s => Return (map (fun c => JStr (String c EmptyString)) (list_ascii_of_string s))
  | _ => Except (PyException "TypeError"
                   ("'" ++ type_name x ++ "' object is not iterable"))
  end.

(** [obj.get(key, default)]: only a dict has the method. *)
Definition py_get (obj : json) (key : string) (default : json) : result json :=
  match obj with
  | JDict kv =>
      Return (match dict_get kv key with Some v => v | None => default end)
  | _ => Except (PyException "AttributeError"
                   ("'" ++ type_name obj ++ "' object has no attribute 'get'"))
  end.

(** One turn of [for alert in data['alerts']]: the four values of the
    line it prints. *)
Definition summarize_alert (alert : json) : result (json * json * json * json) :=
  rdo labels <- py_get alert "labels" (JDict []);
  rdo alert_name <- py_get labels "alertname" (JStr "Unknown");
  rdo status <- py_get alert "status" (JStr "Unknown");
  rdo labels <- py_get alert "labels" (JDict []);
  rdo severity <- py_get labels "severity" (JStr "Unknown");
  rdo labels <- py_get alert "labels" (JDict []);
  rdo service <- py_get labels "service" (JStr "N/A");
  Return (alert_name, status, severity, service).

Fixpoint summarize_alerts (alerts : list json)
    : result (list (json * json * json * json)) :=
  match alerts with
  | [] => Return []
  | alert :: rest =>
      rdo line <- summarize_alert alert;
      rdo lines <- summarize_alerts rest;
      Return (line :: lines)
  end.

(** The part of [do_POST] that prints the summary, as the lines it prints
    or the exception it stops on. *)
Definition print_summary (data : json) : result (list (json * json * json * json)) :=
  rdo has_alerts <- contains_alerts data;
  if has_alerts then
    rdo alerts <- getitem_alerts data;
    rdo items <- iterate alerts;
    summarize_alerts items
  else Return [].

(** An element of [alerts_received]. *)
Record alert_record : Type := mkAlertRecord {
  rec_timestamp : string;
  rec_data : json
}.

(** [alerts_received.append(alert_record)], then [pop(0)] when the list
    has more than 100 elements. *)
Definition store (alerts_received : list alert_record) (r : alert_record)
    : list alert_record :=
  let alerts_received := (alerts_received ++ [r])%list in
  if (100 <? length alerts_received)%nat then tail alerts_received
  else alerts_received.

Inductive method : Type := GET | POST.

(** A request as the handler meets it: the method and path; the outcome of
    reading [Content-Length] bytes and parsing them ([int], [rfile.read],
    [decode], [json.loads]: a value or the exception raised); the reading
    of the clock, [datetime.now().isoformat()]; and the outcome of echoing
    the payload to the console (the two [print]s with [json.dumps] that
    follow the store: [None], or the exception raised, such as a
    [UnicodeEncodeError] of the console or a [RecursionError] of
    [json.dumps]).  The later [print]s write pieces of the same payload to
    the same console and are taken to succeed once the echo has.  For a
    [GET /alerts], [dumped] is the outcome of serialising the buffer,
    [json.dumps(alerts_received, indent=2)]: [None], or the exception
    raised (a [RecursionError] on a deeply nested payload that was parsed
    and stored). *)
Record request : Type := mkRequest {
  req_method : method;
  path : string;
  payload : result json;
  now : string;
  echo : option exn;
  dumped : option exn
}.

(** What the handler writes after the headers: the JSON of a status and a
    message, bytes, the JSON of the buffer, the home page with the count
    of alerts, or nothing, when the handler raised [e] once the headers
    were out (no handler catches it in [do_GET]; the server logs it,
    closes the connection and serves the next request). *)
Inductive body : Type :=
| StatusMessage (status message : string)
| Bytes (s : string)
| AlertsJson (alerts : list alert_record)
| Html (alerts_count : nat)
| Uncaught (e : exn).

Record response : Type := mkResponse {
  status_code : Z;
  content_type : option string;
  resp_body : body
}.

Definition str_of_exn (e : exn) : string :=
  match e with
  | HTTPException _ detail => detail
  | PyException _ msg => msg
  end.

Definition error_response (e : exn) : response :=
  mkResponse 400 (Some "application/json") (StatusMessage "error" (str_of_exn e)).

Definition do_POST (alerts_received : list alert_record) (req : request)
    : list alert_record * response :=
  if String.eqb (path req) "/v1/integrations/alertmanager/webhook" then
    match payload req with
    | Except e => (alerts_received, error_response e)
    | Return data =>
        let timestamp := now req in
        let alerts_received := store alerts_received (mkAlertRecord timestamp data) in
        match echo req with
        | Some e => (alerts_received, error_response e)
        | None =>
            match print_summary data with
            | Except e => (alerts_received, error_response e)
            | Return _ =>
                (alerts_received,
                 mkResponse 200 (Some "application/json")
                   (StatusMessage "success" "Alert received"))
            end
        end
    end
  else (alerts_received, mkResponse 404 None (Bytes "Not Found")).

Definition do_GET (alerts_received : list alert_record) (req : request)
    : list alert_record * response :=
  if String.eqb (path req) "/alerts" then
    match dumped req with
    | None =>
        (alerts_received,
         mkResponse 200 (Some "application/json") (AlertsJson alerts_received))
    | Some e =>
        (alerts_received, mkResponse 200 (Some "application/json") (Uncaught e))
    end
  else if String.eqb (path req) "/health" then
    (alerts_received, mkResponse 200 None (Bytes "OK"))
  else if String.eqb (path req) "/" then
    (alerts_received,
     mkResponse 200 (Some "text/html") (Html (length alerts_received)))
  else (alerts_received, mkResponse 404 None (Bytes "Not Found")).

Definition handle (alerts_received : list alert_record) (req : request)
    : list alert_record * response :=
  match req_method req with
  | POST => do_POST alerts_received req
  | GET => do_GET alerts_received req
  end.

(** The buffer after the server, started with an empty one, has handled
    the requests in turn. *)
Definition run (reqs : list request) : list alert_record :=
  fold_left (fun st req => fst (handle st req)) reqs [].

(** The record a request leaves, if any: the payload of a POST to the
    webhook path that was read and parsed. *)
Definition accepted (req : request) : list alert_record :=
  match req_method req, payload req with
  | POST, Return data =>
      if String.eqb (path req) "/v1/integrations/alertmanager/webhook"
      then [mkAlertRecord (now req) data] else []
  | _, _ => []
  end.

(** The last [n] elements of a list. *)
Definition lastn {A : Type} (n : nat) (l : list A) : list A :=
  drop (length l - n) l.

(** The alerts the summary can print: dicts whose "labels", if there, are
    a dict. *)
Definition alert_shaped (alert : json) : Prop :=
  match alert with
  | JDict kv =>
      match dict_get kv "labels" with
      | Some (JDict _) | None => True
      | Some _ => False
      end
  | _ => False
  end.

(** The payloads on which the summary does not raise: a dict without
    "alerts", or whose "alerts" is a list of alerts of that shape (or an
    empty dict or str); a list without the element 'alerts'; a str without
    the substring 'alerts'. *)
Definition printable (data : json) : Prop :=
  match data with
  | JDict kv =>
      match dict_get kv "alerts" with
      | None => True
      | Some (JList alerts) => Forall alert_shaped alerts
      | Some (JDict kv') => kv' = []
      | Some (JStr s) => s = EmptyString
      | Some _ => False
      end
  | JList l => existsb is_alerts_str l = false
  | JStr s => contains "alerts" s = false
  | _ => False
  end.

End Relay.


(** * Properties *)

(** ** Segment aggregator on the empty sequence *)

(** C4: aggregating the empty sequence returns a value, not an exception:
    the verdict is non-anomalous, its reason is "empty", the ratio and
    streak keys are absent, and the thresholds are echoed under "rules".
    The division is not reached; on this input it would have raised
    [ZeroDivisionError]. *)
Theorem segment_summary_empty (rt : float) (st : Z) :
  _segment_summary [] rt st =
    Ok {| is_segment_anomaly := false;
          reason := Some "empty";
          anomaly_ratio := None;
          max_consecutive_anomaly := None;
          rules := mkRules rt st |} /\
  int_truediv (sum_flags (map is_anomaly [])) (len (@nil PointResult)) =
    Raise (PyException "ZeroDivisionError" "division by zero").
Proof. split; reflexivity. Qed.

(** ** The streak scan *)

Lemma sum_flags_from (flags : list bool) (acc : Z) :
  fold_left (fun acc flag => acc + Z.b2z flag) flags acc =
  acc + len (List.filter id flags).
Proof.
  revert acc. induction flags as [|b flags IH]; intros acc; cbn [fold_left List.filter].
  - unfold len. cbn. lia.
  - rewrite IH. destruct b; unfold len, id; cbn [Z.b2z length]; lia.
Qed.

Lemma filter_map_flags (pr : list PointResult) :
  length (List.filter id (map is_anomaly pr)) = length (List.filter is_anomaly pr).
Proof.
  induction pr as [|p pr IH]; [reflexivity|].
  cbn [map List.filter]. unfold id at 1. destruct (is_anomaly p); cbn [length]; lia.
Qed.

Lemma sum_flags_count (pr : list PointResult) :
  sum_flags (map is_anomaly pr) = count_flagged pr.
Proof.
  unfold sum_flags, count_flagged, len.
  rewrite sum_flags_from, <- filter_map_flags. unfold len. lia.
Qed.

Lemma count_flagged_bounds (pr : list PointResult) :
  0 <= count_flagged pr <= len pr.
Proof.
  unfold count_flagged, len. pose proof (List.filter_length_le is_anomaly pr). lia.
Qed.

Lemma running_counter_app (l : list bool) (x : list bool) (k : nat) :
  (k <= length l)%nat -> running_counter (l ++ x) k = running_counter l k.
Proof.
  induction k as [|k IH]; intros Hk; [reflexivity|].
  cbn [running_counter]. rewrite lookup_app_l by lia. rewrite IH by lia. reflexivity.
Qed.

Lemma running_counter_snoc (l : list bool) (b : bool) :
  running_counter (l ++ [b]) (S (length l)) =
  if b then running_counter l (length l) + 1 else 0.
Proof.
  cbn [running_counter]. rewrite lookup_app_r by lia.
  replace (length l - length l)%nat with 0%nat by lia. cbn.
  rewrite running_counter_app by lia. reflexivity.
Qed.

Lemma max_running_counter_snoc (l : list bool) (b : bool) :
  max_running_counter (l ++ [b]) =
  Z.max (max_running_counter l) (running_counter (l ++ [b]) (S (length l))).
Proof.
  unfold max_running_counter. rewrite length_app. cbn [length].
  replace (S (length l + 1)) with (S (length l) + 1)%nat by lia.
  rewrite seq_app, map_app, fold_right_app.
  change (seq (0 + S (length l)) 1) with [S (length l)].
  cbn [map fold_right].
  set (c := running_counter (l ++ [b]) (S (length l))).
  rewrite (map_ext_in (running_counter (l ++ [b])) (running_counter l)).
  2:{ intros k Hk. apply in_seq in Hk. apply running_counter_app. lia. }
  generalize (map (running_counter l) (seq 0 (S (length l)))). intros xs.
  induction xs as [|x xs IH]; cbn [fold_right]; [lia|]. rewrite IH. lia.
Qed.

(** The loop refines the specification: its first component is the largest
    running counter and its second the running counter at the end. *)
Lemma streak_loop_spec (flags : list bool) :
  streak_loop flags =
  (max_running_counter flags, running_counter flags (length flags)).
Proof.
  induction flags as [|b l IH] using rev_ind; [reflexivity|].
  unfold streak_loop in *. rewrite fold_left_app, IH. cbn [fold_left streak_step].
  rewrite max_running_counter_snoc, running_counter_snoc, length_app.
  cbn [length]. replace (length l + 1)%nat with (S (length l)) by lia.
  rewrite running_counter_snoc. destruct b; [reflexivity|].
  f_equal. pose proof (Z.le_max_l (max_running_counter l) 0).
  assert (0 <= max_running_counter l); [|lia].
  unfold max_running_counter. cbn [seq map fold_right running_counter]. lia.
Qed.

Lemma lookup_map {A B : Type} (f : A -> B) (l : list A) (i : nat) :
  map f l !! i = f <$> l !! i.
Proof.
  revert i. induction l as [|x l IH]; intros [|i]; cbn; try reflexivity. apply IH.
Qed.

Lemma running_counter_bounds (flags : list bool) (j : nat) :
  0 <= running_counter flags j <= Z.of_nat j.
Proof.
  induction j as [|j IH]; cbn [running_counter]; [lia|].
  destruct (flags !! j) as [[|]|]; lia.
Qed.

(** The running counter at [j] counts flagged points: the points just
    before [j], as many as the counter says, are all flagged. *)
Lemma running_counter_run (flags : list bool) (j i : nat) :
  Z.of_nat j - running_counter flags j <= Z.of_nat i < Z.of_nat j ->
  flags !! i = Some true.
Proof.
  induction j as [|j IH]; cbn [running_counter]; [lia|].
  destruct (flags !! j) as [[|]|] eqn:Hj; try lia.
  intros Hi. destruct (decide (i = j)) as [->|Hne]; [exact Hj|].
  apply IH. lia.
Qed.

Lemma run_running_counter (flags : list bool) (s k : nat) :
  (forall i : nat, (s <= i < s + k)%nat -> flags !! i = Some true) ->
  Z.of_nat k <= running_counter flags (s + k).
Proof.
  induction k as [|k IH]; intros Hrun.
  - pose proof (running_counter_bounds flags (s + 0)). lia.
  - replace (s + S k)%nat with (S (s + k)) by lia. cbn [running_counter].
    rewrite (Hrun (s + k)%nat) by lia.
    assert (Z.of_nat k <= running_counter flags (s + k)); [|lia].
    apply IH. intros i Hi. apply Hrun. lia.
Qed.

Lemma fold_max_ge (xs : list Z) (x : Z) :
  In x xs -> x <= fold_right Z.max 0 xs.
Proof.
  induction xs as [|y xs IH]; cbn [fold_right In]; [tauto|].
  intros [->|Hin]; [lia|]. specialize (IH Hin). lia.
Qed.

Lemma fold_max_attained (xs : list Z) :
  fold_right Z.max 0 xs = 0 \/ In (fold_right Z.max 0 xs) xs.
Proof.
  induction xs as [|y xs IH]; cbn [fold_right In]; [tauto|].
  destruct (Z.max_spec y (fold_right Z.max 0 xs)) as [[_ ->]|[_ ->]]; tauto.
Qed.

Lemma max_running_counter_ge (flags : list bool) (j : nat) :
  (j <= length flags)%nat -> running_counter flags j <= max_running_counter flags.
Proof.
  intros Hj. apply fold_max_ge, in_map, in_seq. lia.
Qed.

Lemma max_running_counter_attained (flags : list bool) :
  exists j : nat, (j <= length flags)%nat /\
    max_running_counter flags = running_counter flags j.
Proof.
  unfold max_running_counter.
  destruct (fold_max_attained (map (running_counter flags) (seq 0 (S (length flags)))))
    as [H0|Hin].
  - exists 0%nat. split; [lia|]. rewrite H0. reflexivity.
  - apply in_map_iff in Hin. destruct Hin as (j & Hj & Hin). apply in_seq in Hin.
    exists j. split; [lia|]. symmetry. exact Hj.
Qed.

Lemma max_running_counter_bounds (flags : list bool) :
  0 <= max_running_counter flags <= len flags.
Proof.
  destruct (max_running_counter_attained flags) as (j & Hj & ->).
  pose proof (running_counter_bounds flags j). unfold len. lia.
Qed.

(** The largest running counter is the length of the longest run of
    flagged points: a run of [k >= 1] flagged points exists exactly when
    the maximum reaches [k]. *)
Lemma max_streak_run_iff (pr : list PointResult) (k : nat) :
  (1 <= k)%nat ->
  Z.of_nat k <= max_running_counter (map is_anomaly pr) <->
  exists s : nat, flagged_run pr s k.
Proof.
  intros Hk. set (flags := map is_anomaly pr). split.
  - intros Hmax. destruct (max_running_counter_attained flags) as (j & Hj & Heq).
    rewrite Heq in Hmax. pose proof (running_counter_bounds flags j) as Hb.
    exists (j - k)%nat. intros i Hi. rewrite <- lookup_map.
    apply (running_counter_run flags j). lia.
  - intros (s & Hrun).
    assert (Hflags : forall i : nat, (s <= i < s + k)%nat -> flags !! i = Some true).
    { intros i Hi. unfold flags. rewrite lookup_map. apply Hrun, Hi. }
    pose proof (run_running_counter flags s k Hflags) as Hge.
    assert (s + k <= length flags)%nat.
    { assert (Hl : flags !! (s + k - 1)%nat = Some true) by (apply Hflags; lia).
      apply lookup_lt_Some in Hl. lia. }
    pose proof (max_running_counter_ge flags (s + k)). lia.
Qed.

(** ** The correctly rounded quotient *)

Lemma rne_div_between (n d : Z) :
  0 < d -> n / d <= rne_div n d <= n / d + 1.
Proof.
  intros Hd. unfold rne_div.
  destruct (2 * (n mod d) ?= d); [destruct (Z.even (n / d))|..]; lia.
Qed.

Lemma rne_div_lower (n d q0 : Z) :
  0 < d -> q0 * d <= n -> q0 <= rne_div n d.
Proof.
  intros Hd Hn. pose proof (rne_div_between n d Hd).
  assert (q0 <= n / d) by (apply Z.div_le_lower_bound; lia). lia.
Qed.

Lemma rne_div_upper (n d q1 : Z) :
  0 < d -> n <= q1 * d -> rne_div n d <= q1.
Proof.
  intros Hd Hn. unfold rne_div.
  pose proof (Z.div_mod n d ltac:(lia)) as Hdm.
  pose proof (Z.mod_pos_bound n d Hd) as Hr.
  assert (Hq : n / d <= q1) by (apply Z.div_le_upper_bound; lia).
  destruct (Z.eq_dec (n / d) q1) as [Heq|Hne].
  - assert (n mod d = 0) by nia.
    replace (2 * (n mod d) ?= d) with Lt; [lia|]. symmetry. apply Z.compare_lt_iff. lia.
  - destruct (2 * (n mod d) ?= d); [destruct (Z.even (n / d))|..]; lia.
Qed.

Lemma rne_div_mono (n n' d : Z) :
  0 < d -> n <= n' -> rne_div n d <= rne_div n' d.
Proof.
  intros Hd Hn.
  pose proof (Z.div_le_mono n n' d Hd Hn) as Hq.
  destruct (Z.eq_dec (n / d) (n' / d)) as [Heq|Hne].
  - pose proof (Z.div_mod n d ltac:(lia)) as Hdm.
    pose proof (Z.div_mod n' d ltac:(lia)) as Hdm'.
    assert (Hr : n mod d <= n' mod d) by nia.
    unfold rne_div. rewrite <- Heq.
    destruct (Z.compare_spec (2 * (n mod d)) d);
      destruct (Z.compare_spec (2 * (n' mod d)) d);
      destruct (Z.even (n / d)); lia.
  - pose proof (rne_div_between n d Hd). pose proof (rne_div_between n' d Hd). lia.
Qed.

Lemma rne_div_exact (q d : Z) :
  0 < d -> rne_div (q * d) d = q.
Proof.
  intros Hd. unfold rne_div. rewrite Z.div_mul, Z.mod_mul by lia.
  assert (Hlt : (2 * 0 ?= d) = Lt) by (apply Z.compare_lt_iff; lia).
  rewrite Hlt. reflexivity.
Qed.

(** [quot_log2 a b] is the binade of [a / b]: for [0 < a <= b] it is some
    [e <= 0] with [2^e <= a / b < 2^(e+1)]. *)
Lemma quot_log2_spec (a b : Z) :
  0 < a <= b ->
  quot_log2 a b <= 0 /\
  b <= a * 2 ^ (- quot_log2 a b) < 2 * b.
Proof.
  intros Hab. unfold quot_log2.
  pose proof (Z.log2_spec a ltac:(lia)) as [Ha1 Ha2].
  pose proof (Z.log2_spec b ltac:(lia)) as [Hb1 Hb2].
  pose proof (Z.log2_le_mono a b ltac:(lia)) as Hle.
  pose proof (Z.log2_nonneg a) as Hla.
  set (la := Z.log2 a) in *. set (lb := Z.log2 b) in *.
  rewrite Z.max_r, Z.max_l by lia. rewrite Z.pow_0_r, Z.mul_1_r.
  replace (- (la - lb)) with (lb - la) by lia.
  assert (Hsplit : 2 ^ lb = 2 ^ la * 2 ^ (lb - la)).
  { rewrite <- Z.pow_add_r by lia. f_equal; lia. }
  assert (Hp : 0 < 2 ^ (lb - la)) by (apply Z.pow_pos_nonneg; lia).
  assert (Hpa : 0 < 2 ^ la) by (apply Z.pow_pos_nonneg; lia).
  replace (Z.succ la) with (la + 1) in Ha2 by lia.
  replace (Z.succ lb) with (lb + 1) in Hb2 by lia.
  rewrite Z.pow_add_r in Ha2, Hb2 by lia. change (2 ^ 1) with 2 in *.
  destruct (Z.leb_spec b (a * 2 ^ (lb - la))) as [Ht|Ht].
  - replace (- (la - lb)) with (lb - la) by lia. split; [lia|]. split; [lia|]. nia.
  - replace (- (la - lb - 1)) with (lb - la + 1) by lia.
    rewrite Z.pow_add_r by lia. change (2 ^ 1) with 2.
    split; [lia|]. split; nia.
Qed.

Lemma div_exp_bounds (a b : Z) :
  0 < a <= b -> -1074 <= div_exp a b <= -52.
Proof.
  intros Hab. pose proof (quot_log2_spec a b Hab) as [He _].
  unfold div_exp, ulp_exp. lia.
Qed.

Lemma div_mant_bounds (a b : Z) :
  0 < a <= b ->
  0 <= div_mant a b <= 2 ^ 53 /\
  (div_exp a b = -1074 \/ 2 ^ 52 <= div_mant a b).
Proof.
  intros Hab. pose proof (quot_log2_spec a b Hab) as (He & Hlo & Hhi).
  pose proof (div_exp_bounds a b Hab) as Hk.
  unfold div_mant. set (k := div_exp a b) in *. set (e := quot_log2 a b) in *.
  assert (Hke : k = e - 52 \/ (k = -1074 /\ e - 52 <= k))
    by (unfold k, div_exp, ulp_exp; fold e; lia).
  assert (Hpe : 0 < 2 ^ (- e)) by (apply Z.pow_pos_nonneg; lia).
  assert (Hpk : 0 < 2 ^ (- k)) by (apply Z.pow_pos_nonneg; lia).
  assert (Hsplit : 2 ^ (52 - e) = 2 ^ 52 * 2 ^ (- e)).
  { rewrite <- Z.pow_add_r by lia. f_equal; lia. }
  assert (Hle : 2 ^ (- k) <= 2 ^ (52 - e)) by (apply Z.pow_le_mono_r; lia).
  assert (H52 : 0 < 2 ^ 52) by (apply Z.pow_pos_nonneg; lia).
  split; [split|].
  - apply rne_div_lower; lia.
  - apply rne_div_upper; [lia|]. change (2 ^ 53) with (2 * 2 ^ 52). nia.
  - destruct Hke as [Hke|[Hke _]]; [right|left; exact Hke].
    apply rne_div_lower; [lia|]. replace (- k) with (52 - e) by lia. nia.
Qed.

Lemma pack_canonical (m k : Z) :
  -1074 <= k -> 0 <= m <= 2 ^ 53 -> (k = -1074 \/ 2 ^ 52 <= m) ->
  nonneg_canonical (pack false m k) /\
  sf_val (pack false m k) = m * 2 ^ (k + 1074).
Proof.
  intros Hk Hm Hn. unfold pack. destruct m as [|p|p]; [cbn; split; [exact I|reflexivity]| |lia].
  destruct (Z.eqb_spec (Z.pos p) (2 ^ 53)) as [Heq|Hne].
  - cbn [nonneg_canonical sf_val]. rewrite Heq.
    change (Z.pos (Z.to_pos (2 ^ 52))) with (2 ^ 52).
    split; [split; [lia|split; [reflexivity|right; lia]]|].
    replace (k + 1 + 1074) with (1 + (k + 1074)) by lia.
    rewrite Z.pow_add_r by lia. change (2 ^ 53) with (2 ^ 52 * 2 ^ 1). ring.
  - cbn [nonneg_canonical sf_val]. split; [|reflexivity]. lia.
Qed.

Lemma int_truediv_pos (a b : Z) :
  0 < a <= b ->
  int_truediv a b = Ok (pack false (div_mant a b) (div_exp a b)).
Proof.
  intros Hab. pose proof (div_exp_bounds a b Hab) as Hk.
  pose proof (div_mant_bounds a b Hab) as (Hm & _).
  unfold int_truediv.
  destruct (Z.eqb_spec b 0); [lia|]. destruct (Z.eqb_spec a 0); [lia|].
  destruct (Z.ltb_spec a 0); [lia|]. destruct (Z.ltb_spec b 0); [lia|].
  rewrite !Z.abs_eq by lia. fold (div_exp a b).
  rewrite Z.max_l, Z.max_r by lia. rewrite Z.pow_0_r, Z.mul_1_r.
  fold (div_mant a b). cbn [xorb].
  unfold pack. destruct (div_mant a b) as [|p|p]; [reflexivity| |reflexivity].
  destruct (Z.pos p =? 2 ^ 53).
  - destruct (Z.leb_spec (div_exp a b + 1) (emax - prec)); [reflexivity|].
    unfold emax, prec in *. lia.
  - destruct (Z.leb_spec (div_exp a b) (emax - prec)); [reflexivity|].
    unfold emax, prec in *. lia.
Qed.

Lemma int_truediv_zero (b : Z) :
  0 < b -> int_truediv 0 b = Ok zero.
Proof.
  intros Hb. unfold int_truediv.
  destruct (Z.eqb_spec b 0); [lia|]. destruct (Z.ltb_spec b 0); [lia|]. reflexivity.
Qed.

(** A canonical non-negative quotient exists for every [0 <= a <= b]. *)
Lemma int_truediv_canonical (a b : Z) :
  0 <= a <= b -> 0 < b ->
  exists r : float, int_truediv a b = Ok r /\ nonneg_canonical r /\
    sf_val r = if a =? 0 then 0 else div_mant a b * 2 ^ (div_exp a b + 1074).
Proof.
  intros Hab Hb. destruct (Z.eqb_spec a 0) as [->|Hne].
  - exists zero. rewrite int_truediv_zero by lia. repeat split.
  - assert (Hab' : 0 < a <= b) by lia.
    pose proof (div_exp_bounds a b Hab') as Hk.
    pose proof (div_mant_bounds a b Hab') as (Hm & Hn).
    destruct (pack_canonical (div_mant a b) (div_exp a b)) as (Hc & Hv); [lia..|exact Hn|].
    eexists. rewrite int_truediv_pos by lia. repeat split; assumption.
Qed.

(** On canonical non-negative floats the IEEE comparison is the comparison
    of the values. *)
Lemma SFcompare_canonical (x y : float) :
  nonneg_canonical x -> nonneg_canonical y ->
  SFcompare x y = Some (sf_val x ?= sf_val y).
Proof.
  destruct x as [sx| | |[|] mx ex], y as [sy| | |[|] my ey];
    cbn [nonneg_canonical]; try tauto; intros Hx Hy.
  - cbn [SFcompare sf_val]. f_equal. symmetry. apply Z.compare_lt_iff.
    assert (0 < 2 ^ (ey + 1074)) by (apply Z.pow_pos_nonneg; lia). nia.
  - cbn [SFcompare sf_val]. f_equal. symmetry. apply Z.compare_gt_iff.
    assert (0 < 2 ^ (ex + 1074)) by (apply Z.pow_pos_nonneg; lia). nia.
  - destruct Hx as (Hex & Hmx & Hnx), Hy as (Hey & Hmy & Hny).
    cbn [SFcompare sf_val]. f_equal.
    assert (Hpx : 0 < 2 ^ (ex + 1074)) by (apply Z.pow_pos_nonneg; lia).
    assert (Hpy : 0 < 2 ^ (ey + 1074)) by (apply Z.pow_pos_nonneg; lia).
    change (2 ^ 53) with (2 * 2 ^ 52) in *.
    assert (H52 : 0 < 2 ^ 52) by (apply Z.pow_pos_nonneg; lia).
    destruct (Z.compare_spec ex ey) as [Heq|Hlt|Hgt].
    + subst ey. rewrite Pos.compare_cont_spec. cbn [Pos.switch_Eq].
      change (mx ?= my)%positive with (Z.pos mx ?= Z.pos my).
      destruct (Z.compare_spec (Z.pos mx) (Z.pos my)) as [H|H|H]; symmetry.
      * rewrite H. apply Z.compare_refl.
      * apply Z.compare_lt_iff. nia.
      * apply Z.compare_gt_iff. nia.
    + symmetry. apply Z.compare_lt_iff.
      assert (Hs : 2 ^ (ey + 1074) = 2 ^ (ex + 1074) * 2 ^ (ey - ex)).
      { rewrite <- Z.pow_add_r by lia. f_equal; lia. }
      assert (2 ^ 1 <= 2 ^ (ey - ex)) by (apply Z.pow_le_mono_r; lia).
      change (2 ^ 1) with 2 in *. rewrite Hs. nia.
    + symmetry. apply Z.compare_gt_iff.
      assert (Hs : 2 ^ (ex + 1074) = 2 ^ (ey + 1074) * 2 ^ (ex - ey)).
      { rewrite <- Z.pow_add_r by lia. f_equal; lia. }
      assert (2 ^ 1 <= 2 ^ (ex - ey)) by (apply Z.pow_le_mono_r; lia).
      change (2 ^ 1) with 2 in *. rewrite Hs. nia.
Qed.

Lemma le_canonical (x y : float) :
  nonneg_canonical x -> nonneg_canonical y ->
  float_le x y = true <-> sf_val x <= sf_val y.
Proof.
  intros Hx Hy. unfold float_le, SFleb. rewrite (SFcompare_canonical x y Hx Hy).
  destruct (Z.compare_spec (sf_val x) (sf_val y)); split; intros; try lia; try discriminate; reflexivity.
Qed.

Lemma quot_log2_mono (a a' b : Z) :
  0 < a <= a' -> a' <= b -> quot_log2 a b <= quot_log2 a' b.
Proof.
  intros Ha Hb.
  pose proof (quot_log2_spec a b ltac:(lia)) as (He & Hlo & _).
  pose proof (quot_log2_spec a' b ltac:(lia)) as (He' & _ & Hhi').
  set (e := quot_log2 a b) in *. set (e' := quot_log2 a' b) in *.
  destruct (Z.le_gt_cases e e') as [Hle|Hgt]; [exact Hle|exfalso].
  assert (Hs : 2 ^ (- e') = 2 ^ (- e) * 2 ^ (e - e')).
  { rewrite <- Z.pow_add_r by lia. f_equal; lia. }
  assert (2 ^ 1 <= 2 ^ (e - e')) by (apply Z.pow_le_mono_r; lia).
  assert (0 < 2 ^ (- e)) by (apply Z.pow_pos_nonneg; lia).
  change (2 ^ 1) with 2 in *. rewrite Hs in Hhi'. nia.
Qed.

(** Rounding is monotone: for a fixed divisor the value of the rounded
    quotient does not decrease when the dividend grows. *)
Lemma div_val_mono (a a' b : Z) :
  0 < a <= a' -> a' <= b ->
  div_mant a b * 2 ^ (div_exp a b + 1074) <=
  div_mant a' b * 2 ^ (div_exp a' b + 1074).
Proof.
  intros Ha Hb.
  pose proof (quot_log2_mono a a' b Ha Hb) as He.
  pose proof (div_exp_bounds a b ltac:(lia)) as Hk.
  pose proof (div_exp_bounds a' b ltac:(lia)) as Hk'.
  pose proof (div_mant_bounds a b ltac:(lia)) as (Hm & _).
  pose proof (div_mant_bounds a' b ltac:(lia)) as (Hm' & Hn').
  assert (Hkk : div_exp a b <= div_exp a' b) by (unfold div_exp, ulp_exp; lia).
  set (k := div_exp a b) in *. set (k' := div_exp a' b) in *.
  assert (Hp : 0 < 2 ^ (k + 1074)) by (apply Z.pow_pos_nonneg; lia).
  destruct (Z.eq_dec k k') as [Heq|Hne].
  - rewrite <- Heq. apply Z.mul_le_mono_nonneg_r; [lia|].
    unfold div_mant. fold k k'. rewrite <- Heq. apply rne_div_mono; [lia|].
    assert (0 < 2 ^ (- k)) by (apply Z.pow_pos_nonneg; lia). nia.
  - destruct Hn' as [Hsub|Hnorm]; [lia|].
    assert (Hs : 2 ^ (k' + 1074) = 2 ^ (k + 1074) * 2 ^ (k' - k)).
    { rewrite <- Z.pow_add_r by lia. f_equal; lia. }
    assert (2 ^ 1 <= 2 ^ (k' - k)) by (apply Z.pow_le_mono_r; lia).
    change (2 ^ 1) with 2 in *. change (2 ^ 53) with (2 * 2 ^ 52) in *.
    assert (0 < 2 ^ 52) by (apply Z.pow_pos_nonneg; lia).
    rewrite Hs. nia.
Qed.

Lemma int_truediv_self (b : Z) :
  0 < b -> int_truediv b b = Ok one.
Proof.
  intros Hb. rewrite int_truediv_pos by lia.
  assert (Hq : quot_log2 b b = 0).
  { unfold quot_log2. rewrite Z.sub_diag. cbn [Z.max Z.opp Z.compare].
    rewrite Z.pow_0_r, Z.leb_refl. reflexivity. }
  assert (Hk : div_exp b b = -52) by (unfold div_exp; rewrite Hq; reflexivity).
  unfold div_mant. rewrite Hk. cbn [Z.opp].
  rewrite (Z.mul_comm b), rne_div_exact by lia. reflexivity.
Qed.

(** [a / b <= a' / b] as floats, for [0 <= a <= a' <= b]. *)
Lemma int_truediv_mono (a a' b : Z) (r r' : float) :
  0 <= a <= a' -> a' <= b -> 0 < b ->
  int_truediv a b = Ok r -> int_truediv a' b = Ok r' ->
  float_le r r' = true.
Proof.
  intros Ha Hb Hpos Hr Hr'.
  destruct (int_truediv_canonical a b) as (x & Hx & Hcx & Hvx); [lia..|].
  destruct (int_truediv_canonical a' b) as (y & Hy & Hcy & Hvy); [lia..|].
  rewrite Hr in Hx. rewrite Hr' in Hy. injection Hx as <-. injection Hy as <-.
  apply le_canonical; [assumption..|]. rewrite Hvx, Hvy.
  destruct (Z.eqb_spec a 0) as [->|Hne].
  - destruct (Z.eqb_spec a' 0); [lia|].
    pose proof (div_mant_bounds a' b ltac:(lia)) as (Hm' & _).
    pose proof (div_exp_bounds a' b ltac:(lia)) as Hk'.
    assert (0 < 2 ^ (div_exp a' b + 1074)) by (apply Z.pow_pos_nonneg; lia). nia.
  - destruct (Z.eqb_spec a' 0); [lia|]. apply div_val_mono; lia.
Qed.

(** The ratio of a count to a total is a float between 0.0 and 1.0. *)
Lemma int_truediv_unit_interval (a b : Z) :
  0 <= a <= b -> 0 < b ->
  exists r : float, int_truediv a b = Ok r /\
    float_le zero r = true /\ float_le r one = true.
Proof.
  intros Hab Hb.
  destruct (int_truediv_canonical a b) as (r & Hr & Hc & Hv); [lia..|].
  exists r. split; [exact Hr|]. split.
  - apply (int_truediv_mono 0 a b); try lia; [apply int_truediv_zero; lia|exact Hr].
  - apply (int_truediv_mono a b b); try lia; [exact Hr|apply int_truediv_self; lia].
Qed.

Lemma rne_div_nearest (n d : Z) :
  0 < d -> 2 * Z.abs (rne_div n d * d - n) <= d.
Proof.
  intros Hd. unfold rne_div.
  pose proof (Z.div_mod n d ltac:(lia)) as Hdm.
  pose proof (Z.mod_pos_bound n d Hd) as Hr.
  destruct (Z.compare_spec (2 * (n mod d)) d); [destruct (Z.even (n / d))|..]; nia.
Qed.

(** The quotient is correctly rounded: it is off the exact [a / b] by at
    most half a unit in the last place, that is by at most [2^-53] of the
    quotient as long as the result is a normal number. *)
Lemma int_truediv_nearest (a b : Z) (r : float) :
  0 < a <= b -> int_truediv a b = Ok r ->
  2 * Z.abs (sf_val r * b - a * 2 ^ 1074) <= b * 2 ^ (div_exp a b + 1074) /\
  (b < 2 ^ 1022 -> 2 ^ 53 * Z.abs (sf_val r * b - a * 2 ^ 1074) <= a * 2 ^ 1074).
Proof.
  intros Hab Hr.
  destruct (int_truediv_canonical a b) as (x & Hx & _ & Hv); [lia..|].
  rewrite Hr in Hx. injection Hx as <-.
  destruct (Z.eqb_spec a 0); [lia|]. rewrite Hv.
  pose proof (div_exp_bounds a b Hab) as Hk.
  pose proof (quot_log2_spec a b Hab) as (He & Hlo & Hhi).
  pose proof (rne_div_nearest (a * 2 ^ (- div_exp a b)) b ltac:(lia)) as Hn.
  fold (div_mant a b) in Hn.
  assert (Hke : div_exp a b = quot_log2 a b - 52 \/
                (div_exp a b = -1074 /\ quot_log2 a b < -1022))
    by (unfold div_exp, ulp_exp; lia).
  set (k := div_exp a b) in *. set (m := div_mant a b) in *.
  set (e := quot_log2 a b) in *.
  assert (Hp : 0 < 2 ^ (k + 1074)) by (apply Z.pow_pos_nonneg; lia).
  assert (Hpe : 0 < 2 ^ (- e)) by (apply Z.pow_pos_nonneg; lia).
  assert (Hs : 2 ^ 1074 = 2 ^ (- k) * 2 ^ (k + 1074)).
  { rewrite <- Z.pow_add_r by lia. f_equal; lia. }
  assert (Hsplit : 2 ^ 1074 = 2 ^ 52 * 2 ^ 1022).
  { rewrite <- Z.pow_add_r by lia. f_equal. }
  assert (Hbig : -1022 <= e \/ 2 * 2 ^ 1022 <= 2 ^ (- e)).
  { destruct (Z.le_gt_cases (-1022) e) as [Hle|Hgt]; [left; exact Hle|right].
    change 2 with (2 ^ 1) at 1. rewrite <- Z.pow_add_r by lia.
    apply Z.pow_le_mono_r; lia. }
  assert (Hs2 : k = e - 52 -> 2 ^ 1022 = 2 ^ (- e) * 2 ^ (k + 1074)).
  { intros Hnormal. rewrite <- Z.pow_add_r by lia. f_equal; lia. }
  assert (H52 : 0 < 2 ^ 52) by (apply Z.pow_pos_nonneg; lia).
  change (2 ^ 53) with (2 * 2 ^ 52).
  remember (2 ^ 1074) as P1074 eqn:E1074 in *. clear E1074.
  remember (2 ^ 1022) as P1022 eqn:E1022 in *. clear E1022.
  remember (2 ^ (k + 1074)) as Pk eqn:Ek in *. clear Ek.
  assert (Heq : m * Pk * b - a * P1074 = (m * b - a * 2 ^ (- k)) * Pk)
    by (rewrite Hs; ring).
  assert (Hhalf : 2 * Z.abs (m * Pk * b - a * P1074) <= b * Pk).
  { rewrite Heq, Z.abs_mul, (Z.abs_eq Pk) by lia. nia. }
  split; [exact Hhalf|]. intros Hb.
  assert (Hnormal : k = e - 52).
  { destruct Hke as [Hke|[_ Hke]]; [exact Hke|exfalso].
    destruct Hbig as [Hbig|Hbig]; [lia|]. nia. }
  specialize (Hs2 Hnormal).
  assert (Hbk : b * Pk <= a * P1022) by (rewrite Hs2; nia).
  rewrite Hsplit. nia.
Qed.

(** ** Agreement with the IEEE-754 division of the Standard Library *)

Lemma digits2_pos_log2 (p : positive) :
  Z.pos (digits2_pos p) = Z.log2 (Z.pos p) + 1.
Proof.
  induction p as [p IH|p IH|]; cbn [digits2_pos]; [| |reflexivity].
  - rewrite Pos2Z.inj_succ, IH. rewrite Pos2Z.inj_xI.
    rewrite Z.log2_succ_double by lia. lia.
  - rewrite Pos2Z.inj_succ, IH. rewrite Pos2Z.inj_xO.
    rewrite Z.log2_double by lia. lia.
Qed.

Lemma Zdigits2_range (m d : Z) :
  0 < d -> 2 ^ (d - 1) <= m < 2 ^ d -> Zdigits2 m = d.
Proof.
  intros Hd Hm. assert (0 < 2 ^ (d - 1)) by (apply Z.pow_pos_nonneg; lia).
  destruct m as [|p|p]; try lia. cbn [Zdigits2]. rewrite digits2_pos_log2.
  assert (Z.log2 (Z.pos p) = d - 1); [|lia].
  apply Z.log2_unique; [lia|]. replace (Z.succ (d - 1)) with d by lia. exact Hm.
Qed.

Lemma fexp_normal (x : Z) :
  -1074 <= x - 53 -> fexp prec emax x = x - 53.
Proof. intros H. unfold fexp, emin, prec, emax. lia. Qed.

Lemma loc_of_record_of (m : Z) (l : location) :
  loc_of_shr_record (shr_record_of_loc m l) = l /\ shr_m (shr_record_of_loc m l) = m.
Proof. destruct l as [|[| |]]; split; reflexivity. Qed.

(** The end of [binary_round_aux], after the significand was rounded to
    [m'] at exponent [e]: a carry to [2^53] moves to the next binade. *)
Lemma round_finish (m' e : Z) :
  2 ^ 52 <= m' <= 2 ^ 53 -> -1074 <= e <= 970 ->
  (let '(mrs, e'') := shr_fexp prec emax m' e loc_Exact in
   match shr_m mrs with
   | 0 => S754_zero false
   | Z.pos m => if e'' <=? emax - prec then S754_finite false m e''
                else S754_infinity false
   | Z.neg _ => S754_nan
   end) = pack false m' e.
Proof.
  intros Hm' He. unfold shr_fexp.
  destruct (Z.eq_dec m' (2 ^ 53)) as [Heq|Hne].
  - rewrite Heq. change (2 ^ 53) with 9007199254740992.
    change (Zdigits2 9007199254740992) with 54.
    rewrite fexp_normal by lia. replace (54 + e - 53 - e) with 1 by lia.
    cbn [shr shr_record_of_loc iter_pos shr_1 shr_m orb pack Z.eqb Pos.eqb Z.pow Z.pow_pos
         Pos.iter Z.mul Pos.mul Z.to_pos].
    destruct (Z.leb_spec (e + 1) (emax - prec)); [reflexivity|unfold emax, prec in *; lia].
  - rewrite (Zdigits2_range m' 53) by (change (53 - 1) with 52; lia).
    rewrite fexp_normal by lia. replace (53 + e - 53 - e) with 0 by lia.
    cbn [shr shr_record_of_loc shr_m]. unfold pack.
    destruct m' as [|p|p]; try lia.
    destruct (Z.eqb_spec (Z.pos p) (2 ^ 53)); [lia|].
    destruct (Z.leb_spec e (emax - prec)); [reflexivity|unfold emax, prec in *; lia].
Qed.

Lemma round_nearest_even_between (m : Z) (l : location) :
  m <= round_nearest_even m l <= m + 1.
Proof.
  unfold round_nearest_even. destruct l as [|[| |]]; try destruct (Z.even m); lia.
Qed.

(** Rounding a 53-bit significand: no shift before rounding. *)
Lemma binary_round_aux_53 (m e : Z) (l : location) :
  2 ^ 52 <= m < 2 ^ 53 -> -1074 <= e <= 970 ->
  binary_round_aux prec emax false m e l = pack false (round_nearest_even m l) e.
Proof.
  intros Hm He. unfold binary_round_aux. unfold shr_fexp at 1.
  rewrite (Zdigits2_range m 53) by (change (53 - 1) with 52; lia).
  rewrite fexp_normal by lia. replace (53 + e - 53 - e) with 0 by lia.
  cbn [shr]. destruct (loc_of_record_of m l) as [-> ->].
  pose proof (round_nearest_even_between m l).
  apply round_finish; lia.
Qed.

Lemma shr_1_m (m : Z) (r s : bool) :
  0 < m -> shr_m (shr_1 {| shr_m := m; shr_r := r; shr_s := s |}) = m / 2.
Proof.
  intros Hm. destruct m as [|[p|p|]|]; try lia; cbn [shr_1 shr_m].
  - rewrite Pos2Z.inj_xI. apply Z.div_unique_pos with (r := 1); lia.
  - rewrite Pos2Z.inj_xO. apply Z.div_unique_pos with (r := 0); lia.
  - reflexivity.
Qed.

(** Rounding a 54-bit significand: one bit is shifted out first. *)
Lemma binary_round_aux_54 (m e : Z) (l : location) :
  2 ^ 53 <= m < 2 ^ 54 -> -1074 <= e <= 969 ->
  binary_round_aux prec emax false m e l =
  pack false
    (round_nearest_even (m / 2) (loc_of_shr_record (shr_1 (shr_record_of_loc m l))))
    (e + 1).
Proof.
  intros Hm He. unfold binary_round_aux. unfold shr_fexp at 1.
  rewrite (Zdigits2_range m 54) by (change (54 - 1) with 53; lia).
  rewrite fexp_normal by lia. replace (54 + e - 53 - e) with 1 by lia.
  cbn [shr SpecFloat.iter_pos].
  assert (Hhalf : shr_m (shr_1 (shr_record_of_loc m l)) = m / 2).
  { assert (0 < m) by (assert (0 < 2 ^ 53) by (apply Z.pow_pos_nonneg; lia); lia).
    destruct l as [|[| |]]; cbn [shr_record_of_loc]; apply shr_1_m; assumption. }
  rewrite Hhalf.
  assert (2 ^ 52 <= m / 2 < 2 ^ 53).
  { change (2 ^ 53) with (2 * 2 ^ 52) in Hm. change (2 ^ 54) with (2 * 2 ^ 53) in Hm.
    split; [apply Z.div_le_lower_bound; lia|apply Z.div_lt_upper_bound; lia]. }
  pose proof (round_nearest_even_between (m / 2)
                (loc_of_shr_record (shr_1 (shr_record_of_loc m l)))).
  apply round_finish; lia.
Qed.

(** The location of a remainder, read as a rounding direction, rounds the
    quotient as [rne_div] does. *)
Lemma new_location_exact (B r : Z) :
  0 <= r -> (new_location B r = loc_Exact <-> r = 0).
Proof.
  intros Hr. unfold new_location, new_location_even, new_location_odd.
  destruct (Z.even B); destruct (Z.eqb_spec r 0); split; intros; try congruence; try lia.
Qed.

Lemma rne_new_location (q B r : Z) :
  0 < B -> 0 <= r < B ->
  round_nearest_even q (new_location B r) = rne_div (q * B + r) B.
Proof.
  intros HB Hr. unfold rne_div.
  rewrite (Z.add_comm (q * B)), Z.div_add, Z.mod_add by lia.
  rewrite Z.div_small, Z.mod_small by lia. cbn [Z.add].
  unfold new_location, new_location_even, new_location_odd.
  destruct (Z.even B) eqn:Hev.
  - destruct (Z.eqb_spec r 0) as [->|Hne]; cbn [round_nearest_even].
    + assert (Hlt : (2 * 0 ?= B) = Lt) by (apply Z.compare_lt_iff; lia).
      rewrite Hlt. reflexivity.
    + destruct (2 * r ?= B); reflexivity.
  - assert (Hodd : Z.odd B = true) by (rewrite <- Z.negb_even, Hev; reflexivity).
    apply Z.odd_spec in Hodd. destruct Hodd as [h Hh].
    destruct (Z.eqb_spec r 0) as [->|Hne]; cbn [round_nearest_even].
    + assert (Hlt : (2 * 0 ?= B) = Lt) by (apply Z.compare_lt_iff; lia).
      rewrite Hlt. reflexivity.
    + destruct (Z.compare_spec (2 * r + 1) B); destruct (Z.compare_spec (2 * r) B);
        try reflexivity; lia.
Qed.

Lemma shr_1_pos (m : Z) (r s : bool) :
  0 < m ->
  shr_1 {| shr_m := m; shr_r := r; shr_s := s |} =
  {| shr_m := m / 2; shr_r := Z.odd m; shr_s := r || s |}.
Proof.
  intros Hm. destruct m as [|[p|p|]|]; try lia; cbn [shr_1 Z.odd]; f_equal.
  - rewrite Pos2Z.inj_xI. apply Z.div_unique_pos with (r := 1); lia.
  - rewrite Pos2Z.inj_xO. apply Z.div_unique_pos with (r := 0); lia.
Qed.

Lemma rne_shifted_location (q B r : Z) :
  0 < q -> 0 < B -> 0 <= r < B ->
  round_nearest_even (q / 2)
    (loc_of_shr_record (shr_1 (shr_record_of_loc q (new_location B r)))) =
  rne_div (q * B + r) (2 * B).
Proof.
  intros Hq HB Hr.
  pose proof (Z.div_mod q 2 ltac:(lia)) as Hq2. rewrite Zmod_odd in Hq2.
  assert (Hdiv : (q * B + r) / (2 * B) = q / 2).
  { symmetry. apply Z.div_unique_pos with (r := (if Z.odd q then 1 else 0) * B + r);
      destruct (Z.odd q); nia. }
  assert (Hmod : (q * B + r) mod (2 * B) = (if Z.odd q then 1 else 0) * B + r).
  { symmetry. apply Z.mod_unique_pos with (q := q / 2); destruct (Z.odd q); nia. }
  unfold rne_div. rewrite Hdiv, Hmod.
  pose proof (new_location_exact B r ltac:(lia)) as Hex.
  destruct (new_location B r) as [|[| |]] eqn:Hl; cbn [shr_record_of_loc];
    rewrite shr_1_pos by lia; cbn [orb];
    [assert (Hr0 : r = 0) by (apply Hex; reflexivity)
    |assert (Hr0 : r <> 0) by (intros E; apply Hex in E; discriminate)..];
    destruct (Z.odd q); cbn [loc_of_shr_record round_nearest_even];
    match goal with
    | |- context [?a ?= ?b] => destruct (Z.compare_spec a b)
    end; try reflexivity; lia.
Qed.

Lemma rne_div_scale (n d c : Z) :
  0 < d -> 0 < c -> rne_div (n * c) (d * c) = rne_div n d.
Proof.
  intros Hd Hc. unfold rne_div.
  rewrite Z.div_mul_cancel_r, Z.mul_mod_distr_r by lia.
  destruct (Z.compare_spec (2 * (n mod d)) d);
    destruct (Z.compare_spec (2 * (n mod d * c)) (d * c)); try reflexivity; nia.
Qed.

Lemma Pos_iter_xO (p sh : positive) :
  Z.pos (Pos.iter xO p sh) = Z.pos p * 2 ^ Z.pos sh.
Proof.
  rewrite <- Z.shiftl_mul_pow2 by lia. cbn [Z.shiftl].
  apply (Pos.iter_swap_gen _ _ Z.pos xO (Z.mul 2)). reflexivity.
Qed.

Lemma pack_finite (m e : Z) :
  0 < m < 2 ^ 53 -> pack false m e = S754_finite false (Z.to_pos m) e.
Proof.
  intros Hm. unfold pack. destruct m as [|p|p]; try lia.
  destruct (Z.eqb_spec (Z.pos p) (2 ^ 53)); [lia|reflexivity].
Qed.

(** The normalised significand of a positive integer below [2^53]. *)
Lemma normalised_range (n : Z) :
  0 < n < 2 ^ 53 ->
  0 <= Z.log2 n <= 52 /\ 2 ^ 52 <= n * 2 ^ (52 - Z.log2 n) < 2 ^ 53.
Proof.
  intros Hn. pose proof (Z.log2_spec n ltac:(lia)) as [H1 H2].
  pose proof (Z.log2_nonneg n) as H0.
  assert (Hl : Z.log2 n < 53) by (apply Z.log2_lt_pow2; lia).
  set (l := Z.log2 n) in *. split; [lia|].
  assert (Hs : 2 ^ 52 = 2 ^ l * 2 ^ (52 - l)).
  { rewrite <- Z.pow_add_r by lia. f_equal; lia. }
  assert (Hs' : 2 ^ 53 = 2 ^ Z.succ l * 2 ^ (52 - l)).
  { rewrite <- Z.pow_add_r by lia. f_equal; lia. }
  assert (0 < 2 ^ (52 - l)) by (apply Z.pow_pos_nonneg; lia).
  rewrite Hs at 1. rewrite Hs'. nia.
Qed.

(** An integer below [2^53] converts to a float exactly: its significand
    shifted up to 53 bits. *)
Lemma of_Z_pos (n : Z) :
  0 < n < 2 ^ 53 ->
  of_Z n = S754_finite false (Z.to_pos (n * 2 ^ (52 - Z.log2 n))) (Z.log2 n - 52).
Proof.
  intros Hn. destruct (normalised_range n Hn) as (Hl & HM).
  destruct n as [|p|p]; try lia.
  unfold of_Z, binary_normalize, binary_round.
  rewrite digits2_pos_log2. set (l := Z.log2 (Z.pos p)) in *.
  rewrite fexp_normal by lia. unfold shl_align.
  destruct (Z.eq_dec l 52) as [H52|Hlt].
  - replace (l + 1 + 0 - 53 - 0) with 0 by lia.
    rewrite binary_round_aux_53; [|rewrite H52, Z.mul_1_r in HM; exact HM|lia].
    cbn [round_nearest_even]. rewrite pack_finite by lia.
    rewrite H52. replace (52 - 52) with 0 by lia. rewrite Z.mul_1_r.
    reflexivity.
  - destruct (l + 1 + 0 - 53 - 0) as [|sh|sh] eqn:Hsh; try lia.
    assert (Hsh' : Z.pos sh = 52 - l) by lia.
    pose proof (Pos_iter_xO p sh) as Hiter. rewrite Hsh' in Hiter.
    rewrite binary_round_aux_53; [|rewrite Hiter; exact HM|lia].
    cbn [round_nearest_even]. rewrite pack_finite by (rewrite Hiter; lia).
    rewrite Hiter. f_equal. lia.
Qed.

Lemma SFdiv_core_53 (A B ex ey : Z) :
  2 ^ 52 <= A < 2 ^ 53 -> 2 ^ 52 <= B < 2 ^ 53 -> -1074 <= ex - ey - 53 ->
  SFdiv_core_binary prec emax A ex B ey =
  ((A * 2 ^ 53) / B, ex - ey - 53, new_location B ((A * 2 ^ 53) mod B)).
Proof.
  intros HA HB He. unfold SFdiv_core_binary.
  rewrite (Zdigits2_range A 53), (Zdigits2_range B 53) by (change (53 - 1) with 52; lia).
  rewrite fexp_normal by lia. rewrite Z.min_l by lia.
  replace (ex - ey - (53 + ex - (53 + ey) - 53)) with 53 by lia.
  rewrite Z.shiftl_mul_pow2 by lia.
  replace (53 + ex - (53 + ey) - 53) with (ex - ey - 53) by lia.
  unfold Z.div, Z.modulo. destruct (Z.div_eucl (A * 2 ^ 53) B) as [q r]. reflexivity.
Qed.

(** On integers a float holds exactly, Python's quotient is the IEEE-754
    division of the two floats. *)
Lemma int_truediv_SFdiv (a b : Z) :
  0 <= a <= b -> 0 < b < 2 ^ 53 ->
  int_truediv a b = Ok (SFdiv prec emax (of_Z a) (of_Z b)).
Proof.
  intros Hab Hb. destruct (Z.eq_dec a 0) as [->|Hne].
  { rewrite int_truediv_zero, (of_Z_pos b) by lia. reflexivity. }
  assert (Ha : 0 < a < 2 ^ 53) by lia.
  destruct (normalised_range a Ha) as (Hla & HA).
  destruct (normalised_range b Hb) as (Hlb & HB).
  rewrite (of_Z_pos a Ha), (of_Z_pos b Hb). cbn [SFdiv xorb].
  rewrite !Z2Pos.id by lia.
  pose proof (Z.log2_le_mono a b ltac:(lia)) as Hll.
  set (la := Z.log2 a) in *. set (lb := Z.log2 b) in *.
  set (A := a * 2 ^ (52 - la)) in *. set (B := b * 2 ^ (52 - lb)) in *.
  rewrite SFdiv_core_53 by lia.
  pose proof (Z.div_mod (A * 2 ^ 53) B ltac:(lia)) as Hdm.
  pose proof (Z.mod_pos_bound (A * 2 ^ 53) B ltac:(lia)) as Hr.
  set (q := A * 2 ^ 53 / B) in *. set (r := (A * 2 ^ 53) mod B) in *.
  assert (H53 : 0 < 2 ^ 53) by (apply Z.pow_pos_nonneg; lia).
  change (2 ^ 53) with (2 * 2 ^ 52) in HA, HB.
  assert (H52 : 0 < 2 ^ 52) by (apply Z.pow_pos_nonneg; lia).
  assert (Hc : 0 < 2 ^ (52 - lb)) by (apply Z.pow_pos_nonneg; lia).
  assert (HAs : A = a * 2 ^ (lb - la) * 2 ^ (52 - lb)).
  { unfold A. rewrite <- Z.mul_assoc, <- Z.pow_add_r by lia. do 2 f_equal; lia. }
  rewrite int_truediv_pos by lia.
  assert (Hq0 : quot_log2 a b = if b <=? a * 2 ^ (lb - la) then la - lb else la - lb - 1).
  { unfold quot_log2. fold la lb. rewrite Z.max_r, Z.max_l by lia.
    rewrite Z.pow_0_r, Z.mul_1_r. replace (- (la - lb)) with (lb - la) by lia.
    reflexivity. }
  destruct (Z.leb_spec b (a * 2 ^ (lb - la))) as [Hge|Hlt].
  - (* A >= B: a 54-bit quotient *)
    assert (HBA : B <= A) by (rewrite HAs; unfold B; nia).
    assert (Hq : 2 ^ 53 <= q < 2 ^ 54).
    { change (2 ^ 54) with (2 * 2 ^ 53). split.
      - apply Z.div_le_lower_bound; lia.
      - apply Z.div_lt_upper_bound; [lia|]. change (2 ^ 53) with (2 * 2 ^ 52). nia. }
    rewrite binary_round_aux_54 by lia.
    rewrite rne_shifted_location by lia. rewrite (Z.mul_comm q B), <- Hdm.
    assert (Hk : div_exp a b = la - lb - 52) by (unfold div_exp, ulp_exp; rewrite Hq0; lia).
    unfold div_mant. rewrite Hk.
    replace (la - 52 - (lb - 52) - 53 + 1) with (la - lb - 52) by lia.
    do 2 f_equal.
    rewrite <- (rne_div_scale (a * 2 ^ (- (la - lb - 52))) b (2 * 2 ^ (52 - lb))) by lia.
    f_equal; [|unfold B; ring].
    unfold A. change (2 * 2 ^ (52 - lb)) with (2 ^ 1 * 2 ^ (52 - lb)).
    rewrite <- !Z.mul_assoc, <- !Z.pow_add_r by lia. do 2 f_equal; lia.
  - (* A < B: a 53-bit quotient *)
    assert (HBA : A < B) by (rewrite HAs; unfold B; nia).
    assert (Hq : 2 ^ 52 <= q < 2 ^ 53).
    { split.
      - apply Z.div_le_lower_bound; [lia|]. change (2 ^ 53) with (2 * 2 ^ 52). nia.
      - apply Z.div_lt_upper_bound; [lia|]. nia. }
    rewrite binary_round_aux_53 by lia.
    rewrite rne_new_location by lia. rewrite (Z.mul_comm q B), <- Hdm.
    assert (Hk : div_exp a b = la - lb - 53) by (unfold div_exp, ulp_exp; rewrite Hq0; lia).
    unfold div_mant. rewrite Hk.
    replace (la - 52 - (lb - 52) - 53) with (la - lb - 53) by lia.
    do 2 f_equal.
    rewrite <- (rne_div_scale (a * 2 ^ (- (la - lb - 53))) b (2 ^ (52 - lb))) by lia.
    f_equal.
    unfold A. rewrite <- !Z.mul_assoc, <- !Z.pow_add_r by lia. do 2 f_equal; lia.
Qed.

(** A canonical non-negative float of exponent at most 971 is a binary64
    number in the sense of the Standard Library. *)
Lemma nonneg_canonical_valid (f : float) :
  nonneg_canonical f ->
  match f with S754_finite _ _ e => e <= 971 | _ => True end ->
  valid_binary prec emax f = true.
Proof.
  destruct f as [s|s| |[|] m e]; cbn [nonneg_canonical valid_binary]; try tauto.
  intros (He & Hm & Hn) He'. unfold bounded, canonical_mantissa.
  rewrite digits2_pos_log2.
  pose proof (Z.log2_spec (Z.pos m) ltac:(lia)) as [Hl1 Hl2].
  pose proof (Z.log2_nonneg (Z.pos m)) as Hl0.
  assert (Hl : Z.log2 (Z.pos m) < 53) by (apply Z.log2_lt_pow2; lia).
  apply andb_true_intro. split; [|apply Z.leb_le; unfold emax, prec; lia].
  apply Z.eqb_eq. destruct (Z.le_gt_cases (2 ^ 52) (Z.pos m)) as [Hnorm|Hsub].
  - assert (Z.log2 (Z.pos m) = 52) by (apply Z.log2_unique; [lia|split; [exact Hnorm|exact Hm]]).
    rewrite fexp_normal by lia. lia.
  - destruct Hn as [->|Hn]; [|lia]. unfold fexp, emin, emax, prec. lia.
Qed.

Lemma int_truediv_valid (a b : Z) (r : float) :
  0 <= a <= b -> 0 < b -> int_truediv a b = Ok r ->
  valid_binary prec emax r = true.
Proof.
  intros Hab Hb Hr.
  destruct (int_truediv_canonical a b) as (x & Hx & Hc & _); [lia..|].
  rewrite Hr in Hx. injection Hx as <-.
  apply nonneg_canonical_valid; [exact Hc|].
  destruct (Z.eq_dec a 0) as [->|Hne].
  - rewrite int_truediv_zero in Hr by lia. injection Hr as <-. exact I.
  - rewrite int_truediv_pos in Hr by lia. injection Hr as <-.
    pose proof (div_exp_bounds a b ltac:(lia)) as Hk. unfold pack.
    destruct (div_mant a b) as [|p|p]; try exact I.
    destruct (Z.pos p =? 2 ^ 53); lia.
Qed.

(** ** The segment aggregator on a non-empty sequence *)

Lemma len_pos {A : Type} (l : list A) : l <> [] -> 0 < len l.
Proof. destruct l; [congruence|]. intros _. unfold len. cbn [length]. lia. Qed.

(** What [_segment_summary] returns on a non-empty sequence, with the
    ratio named. *)
Lemma segment_summary_nonempty (pr : list PointResult) (rt : float) (st : Z) :
  pr <> [] ->
  exists ratio : float,
    int_truediv (count_flagged pr) (len pr) = Ok ratio /\
    nonneg_canonical ratio /\
    _segment_summary pr rt st =
      Ok {| is_segment_anomaly :=
              float_ge ratio rt
              || (max_running_counter (map is_anomaly pr) >=? st);
            reason := None;
            anomaly_ratio := Some ratio;
            max_consecutive_anomaly := Some (max_running_counter (map is_anomaly pr));
            rules := mkRules rt st |}.
Proof.
  intros Hne. pose proof (len_pos pr Hne) as Hlen.
  pose proof (count_flagged_bounds pr) as Hc.
  destruct (int_truediv_canonical (count_flagged pr) (len pr)) as (ratio & Hr & Hcan & _);
    [lia..|].
  exists ratio. split; [exact Hr|]. split; [exact Hcan|].
  unfold _segment_summary. destruct (Z.eqb_spec (len pr) 0); [lia|].
  rewrite sum_flags_count, Hr. cbn [bind].
  rewrite streak_loop_spec. reflexivity.
Qed.

Lemma count_flagged_all (pr : list PointResult) :
  Forall (fun p => is_anomaly p = true) pr -> count_flagged pr = len pr.
Proof.
  intros Hall. unfold count_flagged. f_equal.
  induction Hall as [|p pr Hp _ IH]; [reflexivity|].
  cbn [List.filter]. rewrite Hp, IH. reflexivity.
Qed.

Lemma flagged_run_all (pr : list PointResult) :
  Forall (fun p => is_anomaly p = true) pr -> flagged_run pr 0 (length pr).
Proof.
  intros Hall j Hj. destruct (pr !! j) as [p|] eqn:Hp.
  - cbn. f_equal. rewrite Forall_forall in Hall. apply Hall.
    eapply list_elem_of_lookup_2. exact Hp.
  - apply lookup_ge_None in Hp. lia.
Qed.

Lemma max_streak_all (pr : list PointResult) :
  Forall (fun p => is_anomaly p = true) pr ->
  max_running_counter (map is_anomaly pr) = len pr.
Proof.
  intros Hall. pose proof (max_running_counter_bounds (map is_anomaly pr)) as Hb.
  unfold len in *. rewrite length_map in Hb.
  destruct (decide (length pr = 0%nat)) as [H0|Hpos]; [lia|].
  assert (Z.of_nat (length pr) <= max_running_counter (map is_anomaly pr)); [|lia].
  apply max_streak_run_iff; [lia|]. exists 0%nat. apply flagged_run_all, Hall.
Qed.

Lemma max_streak_reaches (pr : list PointResult) (st : Z) :
  (exists s k : nat, st <= Z.of_nat k /\ flagged_run pr s k) ->
  st <= max_running_counter (map is_anomaly pr).
Proof.
  intros (s & k & Hk & Hrun).
  pose proof (max_running_counter_bounds (map is_anomaly pr)) as Hb.
  destruct k as [|k]; [lia|].
  assert (Z.of_nat (S k) <= max_running_counter (map is_anomaly pr)); [|lia].
  apply max_streak_run_iff; [lia|]. exists s. exact Hrun.
Qed.

(** C1: on a non-empty sequence the verdict is the disjunction of the two
    rules, [ratio >= ratio_threshold] or [max_streak >= streak_threshold],
    where [ratio] is the quotient of the number of flagged points by the
    total and [max_streak] is the length of the longest run of flagged
    points; so one run of at least [streak_threshold] flagged points
    suffices whatever the ratio, and a ratio at or above [ratio_threshold]
    suffices whatever the runs. *)
Theorem segment_verdict_is_or (pr : list PointResult) (rt : float) (st : Z) :
  pr <> [] ->
  exists (seg : SegmentSummary) (ratio : float) (streak : Z),
    _segment_summary pr rt st = Ok seg /\
    int_truediv (count_flagged pr) (len pr) = Ok ratio /\
    anomaly_ratio seg = Some ratio /\
    max_consecutive_anomaly seg = Some streak /\
    (forall k : nat, (1 <= k)%nat ->
       Z.of_nat k <= streak <-> exists s : nat, flagged_run pr s k) /\
    is_segment_anomaly seg = float_ge ratio rt || (streak >=? st) /\
    ((exists s k : nat, st <= Z.of_nat k /\ flagged_run pr s k) ->
       is_segment_anomaly seg = true) /\
    (float_ge ratio rt = true -> is_segment_anomaly seg = true).
Proof.
  intros Hne. destruct (segment_summary_nonempty pr rt st Hne) as (ratio & Hr & _ & Hseg).
  eexists _, ratio, _. split; [exact Hseg|].
  cbn [anomaly_ratio max_consecutive_anomaly is_segment_anomaly].
  split; [exact Hr|]. split; [reflexivity|]. split; [reflexivity|].
  split; [intros k Hk; apply max_streak_run_iff, Hk|].
  split; [reflexivity|]. split.
  - intros Hrun. apply max_streak_reaches in Hrun.
    apply orb_true_iff. right. apply Z.geb_le. exact Hrun.
  - intros Hge. rewrite Hge. reflexivity.
Qed.

Lemma segment_verdict_is_or_witness :
  sample_streak <> [] /\
  exists (seg : SegmentSummary) (ratio : float) (streak : Z),
    _segment_summary sample_streak f64_0_5 3 = Ok seg /\
    int_truediv (count_flagged sample_streak) (len sample_streak) = Ok ratio /\
    anomaly_ratio seg = Some ratio /\
    max_consecutive_anomaly seg = Some streak /\
    (forall k : nat, (1 <= k)%nat ->
       Z.of_nat k <= streak <-> exists s : nat, flagged_run sample_streak s k) /\
    is_segment_anomaly seg = float_ge ratio f64_0_5 || (streak >=? 3) /\
    ((exists s k : nat, 3 <= Z.of_nat k /\ flagged_run sample_streak s k) ->
       is_segment_anomaly seg = true) /\
    (float_ge ratio f64_0_5 = true -> is_segment_anomaly seg = true).
Proof.
  split; [discriminate|].
  apply (segment_verdict_is_or sample_streak f64_0_5 3). discriminate.
Defined.

(** The streak rule alone: ratio 0.3 < 0.5, one run of 3 >= 3. *)
Example verdict_by_streak_alone :
  _segment_summary sample_streak f64_0_5 3 =
    Ok {| is_segment_anomaly := true;
          reason := None;
          anomaly_ratio := Some (S754_finite false 5404319552844595 (-54));
          max_consecutive_anomaly := Some 3;
          rules := mkRules f64_0_5 3 |}.
Proof. vm_compute. reflexivity. Qed.

(** The ratio rule alone: ratio 0.5 >= 0.5, longest run 1 < 2. *)
Example verdict_by_ratio_alone :
  _segment_summary sample_diffuse f64_0_5 2 =
    Ok {| is_segment_anomaly := true;
          reason := None;
          anomaly_ratio := Some f64_0_5;
          max_consecutive_anomaly := Some 1;
          rules := mkRules f64_0_5 2 |}.
Proof. vm_compute. reflexivity. Qed.

(** Neither rule: ratio 0.3 < 0.5 and longest run 3 < 4. *)
Example verdict_by_neither :
  is_segment_anomaly <$> (match _segment_summary sample_streak f64_0_5 4 with
                          | Ok seg => Some seg
                          | _ => None
                          end) = Some false.
Proof. vm_compute. reflexivity. Qed.

(** Three points, all flagged: a ratio of 1.0 and a streak of 3. *)
Example verdict_all_flagged :
  _segment_summary [point "t0" true; point "t1" true; point "t2" true] f64_0_2 20 =
    Ok {| is_segment_anomaly := true;
          reason := None;
          anomaly_ratio := Some one;
          max_consecutive_anomaly := Some 3;
          rules := mkRules f64_0_2 20 |}.
Proof. vm_compute. reflexivity. Qed.

(** One point in five against the default threshold 0.20: the quotient
    1/5 rounds to the very float the literal 0.2 denotes, so the ratio rule
    fires. *)
Example verdict_at_default_ratio :
  _segment_summary sample_fifth f64_0_2 20 =
    Ok {| is_segment_anomaly := true;
          reason := None;
          anomaly_ratio := Some f64_0_2;
          max_consecutive_anomaly := Some 1;
          rules := mkRules f64_0_2 20 |}.
Proof. vm_compute. reflexivity. Qed.

(** The quotient of the model against the IEEE-754 division of the
    Standard Library, on operands a float holds exactly. *)
Example int_truediv_agrees_with_SFdiv :
  Forall (fun '(a, b) => int_truediv a b = Ok (SFdiv prec emax (of_Z a) (of_Z b)))
    [(1, 5); (3, 10); (2, 3); (1, 3); (7, 7); (0, 9); (1, 1000000); (999999, 1000000);
     (2 ^ 53 - 2, 2 ^ 53 - 1); (1, 2 ^ 53 - 1); (12345, 67890);
     (4503599627370497, 9007199254740991); (10, 3); (7, 2); (2 ^ 53 - 1, 3);
     (-7, 2); (1, -3); (-5, -10); (0, -4)].
Proof. repeat constructor. Qed.

(** C3: on a non-empty sequence [anomaly_ratio] is the quotient of the
    number of flagged points by the total, as Python's [/] gives it: the
    binary64 float nearest to the exact quotient, off by at most [2^-53] of
    it, and the IEEE-754 quotient of the two numbers as floats when the
    total is below [2^53]; [max_consecutive_anomaly] is the largest value of a counter run
    once over the flags in order, reset to 0 on a non-flagged point and
    incremented on a flagged one; when every point is flagged the ratio is
    1.0 and the streak is the length. *)
Theorem segment_ratio_and_streak (pr : list PointResult) (rt : float) (st : Z) :
  pr <> [] ->
  exists (seg : SegmentSummary) (ratio : float),
    _segment_summary pr rt st = Ok seg /\
    int_truediv (count_flagged pr) (len pr) = Ok ratio /\
    anomaly_ratio seg = Some ratio /\
    nonneg_canonical ratio /\
    (len pr < 2 ^ 1022 ->
     2 ^ 53 * Z.abs (sf_val ratio * len pr - count_flagged pr * 2 ^ 1074)
       <= count_flagged pr * 2 ^ 1074) /\
    (len pr < 2 ^ 53 ->
     ratio = SFdiv prec emax (of_Z (count_flagged pr)) (of_Z (len pr))) /\
    max_consecutive_anomaly seg = Some (max_running_counter (map is_anomaly pr)) /\
    streak_loop (map is_anomaly pr) =
      (max_running_counter (map is_anomaly pr),
       running_counter (map is_anomaly pr) (length pr)) /\
    (Forall (fun p => is_anomaly p = true) pr ->
       anomaly_ratio seg = Some one /\
       max_consecutive_anomaly seg = Some (len pr)).
Proof.
  intros Hne.
  destruct (segment_summary_nonempty pr rt st Hne) as (ratio & Hr & Hcan & Hseg).
  pose proof (len_pos pr Hne) as Hlen. pose proof (count_flagged_bounds pr) as Hc.
  eexists _, ratio. split; [exact Hseg|].
  cbn [anomaly_ratio max_consecutive_anomaly is_segment_anomaly].
  split; [exact Hr|]. split; [reflexivity|]. split; [exact Hcan|].
  split; [|split; [|split; [reflexivity|split]]].
  - intros Hsmall. destruct (Z.eq_dec (count_flagged pr) 0) as [H0|Hpos].
    + rewrite H0, int_truediv_zero in Hr by lia. injection Hr as <-.
      rewrite H0. cbn [sf_val zero]. rewrite !Z.mul_0_l. cbn [Z.sub Z.opp Z.add Z.abs].
      rewrite Z.mul_0_r. reflexivity.
    + apply (int_truediv_nearest (count_flagged pr) (len pr) ratio); [lia|exact Hr|exact Hsmall].
  - intros Hsmall. rewrite int_truediv_SFdiv in Hr by lia. injection Hr as <-. reflexivity.
  - rewrite streak_loop_spec, length_map. reflexivity.
  - intros Hall. rewrite max_streak_all by exact Hall.
    rewrite count_flagged_all in Hr by exact Hall.
    rewrite int_truediv_self in Hr by exact Hlen.
    injection Hr as <-. split; reflexivity.
Qed.

Lemma segment_ratio_and_streak_witness :
  sample_diffuse <> [] /\
  exists (seg : SegmentSummary) (ratio : float),
    _segment_summary sample_diffuse f64_0_2 20 = Ok seg /\
    int_truediv (count_flagged sample_diffuse) (len sample_diffuse) = Ok ratio /\
    anomaly_ratio seg = Some ratio /\
    nonneg_canonical ratio /\
    (len sample_diffuse < 2 ^ 1022 ->
     2 ^ 53 * Z.abs (sf_val ratio * len sample_diffuse
                     - count_flagged sample_diffuse * 2 ^ 1074)
       <= count_flagged sample_diffuse * 2 ^ 1074) /\
    (len sample_diffuse < 2 ^ 53 ->
     ratio = SFdiv prec emax (of_Z (count_flagged sample_diffuse))
               (of_Z (len sample_diffuse))) /\
    max_consecutive_anomaly seg =
      Some (max_running_counter (map is_anomaly sample_diffuse)) /\
    streak_loop (map is_anomaly sample_diffuse) =
      (max_running_counter (map is_anomaly sample_diffuse),
       running_counter (map is_anomaly sample_diffuse) (length sample_diffuse)) /\
    (Forall (fun p => is_anomaly p = true) sample_diffuse ->
       anomaly_ratio seg = Some one /\
       max_consecutive_anomaly seg = Some (len sample_diffuse)).
Proof.
  split; [discriminate|].
  apply (segment_ratio_and_streak sample_diffuse f64_0_2 20). discriminate.
Defined.

(** C8: on a non-empty sequence the ratio is a binary64 number between
    0.0 and 1.0 and the streak lies between 0 and the total; and of two
    sequences of the same length the one with at least as many flagged
    points has at least as large a ratio. *)
Theorem segment_summary_bounds (pr : list PointResult) (rt : float) (st : Z) :
  pr <> [] ->
  exists (seg : SegmentSummary) (ratio : float) (streak : Z),
    _segment_summary pr rt st = Ok seg /\
    anomaly_ratio seg = Some ratio /\
    max_consecutive_anomaly seg = Some streak /\
    valid_binary prec emax ratio = true /\
    float_le zero ratio = true /\ float_le ratio one = true /\
    0 <= streak <= len pr /\
    (forall (pr' : list PointResult) (rt' : float) (st' : Z)
            (seg' : SegmentSummary) (ratio' : float),
       length pr' = length pr ->
       count_flagged pr <= count_flagged pr' ->
       _segment_summary pr' rt' st' = Ok seg' ->
       anomaly_ratio seg' = Some ratio' ->
       float_le ratio ratio' = true).
Proof.
  intros Hne. destruct (segment_summary_nonempty pr rt st Hne) as (ratio & Hr & _ & Hseg).
  pose proof (len_pos pr Hne) as Hlen. pose proof (count_flagged_bounds pr) as Hc.
  eexists _, ratio, _. split; [exact Hseg|].
  cbn [anomaly_ratio max_consecutive_anomaly is_segment_anomaly].
  split; [reflexivity|]. split; [reflexivity|].
  destruct (int_truediv_unit_interval (count_flagged pr) (len pr)) as (r & Hr' & H0 & H1);
    [lia..|]. rewrite Hr in Hr'. injection Hr' as <-.
  split; [apply (int_truediv_valid (count_flagged pr) (len pr)); [lia|lia|exact Hr]|].
  split; [exact H0|]. split; [exact H1|]. split.
  - pose proof (max_running_counter_bounds (map is_anomaly pr)) as Hb.
    unfold len in *. rewrite length_map in Hb. exact Hb.
  - intros pr' rt' st' seg' ratio' Hsame Hcount Hseg' Hratio'.
    assert (Hne' : pr' <> []) by (destruct pr', pr; cbn in *; congruence).
    destruct (segment_summary_nonempty pr' rt' st' Hne') as (r' & Hr' & _ & Heq).
    rewrite Heq in Hseg'. injection Hseg' as <-. cbn in Hratio'. injection Hratio' as <-.
    pose proof (count_flagged_bounds pr') as Hc'.
    assert (Hl : len pr' = len pr) by (unfold len; lia). rewrite Hl in *.
    apply (int_truediv_mono (count_flagged pr) (count_flagged pr') (len pr)); try lia; assumption.
Qed.

Lemma segment_summary_bounds_witness :
  sample_streak <> [] /\
  exists (seg : SegmentSummary) (ratio : float) (streak : Z),
    _segment_summary sample_streak f64_0_2 20 = Ok seg /\
    anomaly_ratio seg = Some ratio /\
    max_consecutive_anomaly seg = Some streak /\
    valid_binary prec emax ratio = true /\
    float_le zero ratio = true /\ float_le ratio one = true /\
    0 <= streak <= len sample_streak /\
    (forall (pr' : list PointResult) (rt' : float) (st' : Z)
            (seg' : SegmentSummary) (ratio' : float),
       length pr' = length sample_streak ->
       count_flagged sample_streak <= count_flagged pr' ->
       _segment_summary pr' rt' st' = Ok seg' ->
       anomaly_ratio seg' = Some ratio' ->
       float_le ratio ratio' = true).
Proof.
  split; [discriminate|].
  apply (segment_summary_bounds sample_streak f64_0_2 20). discriminate.
Defined.

(** ** The interval scan *)

Lemma getitem_lookup {A : Type} (l : list A) (i : nat) (x : A) :
  l !! i = Some x -> getitem l i = Ok x.
Proof. intros H. unfold getitem. rewrite H. reflexivity. Qed.

Lemma flag_at_lookup (pr : list PointResult) (i : nat) (p : PointResult) :
  pr !! i = Some p -> flag_at pr i = is_anomaly p.
Proof. intros H. unfold flag_at. rewrite H. reflexivity. Qed.

Lemma flag_at_past_end (pr : list PointResult) (i : nat) :
  (length pr <= i)%nat -> flag_at pr i = false.
Proof. intros H. unfold flag_at. rewrite lookup_ge_None_2 by lia. reflexivity. Qed.

Lemma flag_at_true_lt (pr : list PointResult) (i : nat) :
  flag_at pr i = true -> (i < length pr)%nat.
Proof.
  intros H. destruct (Nat.lt_ge_cases i (length pr)) as [Hlt|Hge]; [exact Hlt|].
  rewrite flag_at_past_end in H by exact Hge. discriminate.
Qed.

(** The inner loop stops at the first index from [i] on that is not
    flagged, or at the end. *)
Lemma run_while_spec (pr : list PointResult) (fuel i : nat) :
  (i <= length pr)%nat -> (length pr - i < fuel)%nat ->
  exists i' : nat,
    run_while fuel pr (length pr) i = Ok i' /\
    (i <= i' <= length pr)%nat /\
    (forall j : nat, (i <= j < i')%nat -> flag_at pr j = true) /\
    flag_at pr i' = false.
Proof.
  revert i. induction fuel as [|fuel IH]; intros i Hi Hfuel; [lia|].
  cbn [run_while]. destruct (Nat.ltb_spec i (length pr)) as [Hlt|Hge].
  - destruct (lookup_lt_is_Some_2 pr i Hlt) as [item Hitem].
    rewrite (getitem_lookup pr i item Hitem). cbn [bind].
    destruct (is_anomaly item) eqn:Hflag.
    + destruct (IH (i + 1)%nat) as (i' & Hrun & Hbounds & Hall & Hstop); [lia..|].
      exists i'. split; [exact Hrun|]. split; [lia|]. split; [|exact Hstop].
      intros j Hj. destruct (decide (j = i)) as [->|Hne].
      * rewrite (flag_at_lookup pr i item Hitem). exact Hflag.
      * apply Hall. lia.
    + exists i. split; [reflexivity|]. split; [lia|]. split; [intros j Hj; lia|].
      rewrite (flag_at_lookup pr i item Hitem). exact Hflag.
  - exists i. split; [reflexivity|]. split; [lia|]. split; [intros j Hj; lia|].
    apply flag_at_past_end. lia.
Qed.

(** The outer loop, for any [emit] that succeeds on indices of the
    sequence: it appends [emit] of each run of [Runs], and the same runs
    whatever [emit]. *)
Lemma scan_while_spec {R : Type}
    (emit : list PointResult -> nat -> nat -> pyresult R) (f : nat * nat -> R)
    (pr : list PointResult) :
  (forall s e : nat, (s <= e < length pr)%nat -> emit pr s e = Ok (f (s, e))) ->
  forall (fuel i : nat) (acc : list R) (acc0 : list (nat * nat)),
    (i <= length pr)%nat -> (length pr - i < fuel)%nat ->
    exists runs : list (nat * nat),
      Runs pr i runs /\
      scan_while emit_indices fuel pr (length pr) i acc0 = Ok (acc0 ++ runs)%list /\
      scan_while emit fuel pr (length pr) i acc = Ok (acc ++ map f runs)%list.
Proof.
  intros Hemit. induction fuel as [|fuel IH]; intros i acc acc0 Hi Hfuel; [lia|].
  cbn [scan_while]. destruct (Nat.ltb_spec i (length pr)) as [Hlt|Hge].
  - destruct (lookup_lt_is_Some_2 pr i Hlt) as [item Hitem].
    rewrite (getitem_lookup pr i item Hitem). cbn [bind].
    destruct (is_anomaly item) eqn:Hflag; cbn [negb].
    + destruct (run_while_spec pr (S fuel) i) as (i' & Hrun & Hbounds & Hall & Hstop);
        [lia..|].
      rewrite Hrun. cbn [bind].
      assert (Hnext : (i < i')%nat).
      { destruct (decide (i' = i)) as [->|Hne]; [|lia].
        rewrite (flag_at_lookup pr i item Hitem) in Hstop. congruence. }
      rewrite Hemit by lia. unfold emit_indices at 1. cbn [bind].
      destruct (IH i' (acc ++ [f (i, (i' - 1)%nat)])%list (acc0 ++ [(i, (i' - 1)%nat)])%list)
        as (runs & Hruns & Hidx & Hout); [lia..|].
      exists ((i, (i' - 1)%nat) :: runs). split; [|split].
      * apply Runs_emit; [lia| |replace (S (i' - 1)) with i' by lia; exact Hstop
                         |replace (S (i' - 1)) with i' by lia; exact Hruns].
        intros j Hj. apply Hall. lia.
      * rewrite Hidx, <- app_assoc. reflexivity.
      * rewrite Hout, <- app_assoc. reflexivity.
    + destruct (IH (i + 1)%nat acc acc0) as (runs & Hruns & Hidx & Hout); [lia..|].
      exists runs. split; [|split; assumption].
      apply Runs_skip; [exact Hlt| |replace (S i) with (i + 1)%nat by lia; exact Hruns].
      rewrite (flag_at_lookup pr i item Hitem). exact Hflag.
  - exists []. split; [apply Runs_done; lia|]. rewrite !app_nil_r. split; reflexivity.
Qed.

Lemma emit_interval_ok (pr : list PointResult) (s e : nat) :
  (s <= e < length pr)%nat -> emit_interval pr s e = Ok (interval_of pr (s, e)).
Proof.
  intros Hse. unfold emit_interval, interval_of, timestamp_at. cbn [fst snd].
  destruct (lookup_lt_is_Some_2 pr s ltac:(lia)) as [a Ha].
  destruct (lookup_lt_is_Some_2 pr e ltac:(lia)) as [b Hb].
  rewrite (getitem_lookup pr s a Ha), (getitem_lookup pr e b Hb), Ha, Hb. reflexivity.
Qed.

(** The extractor returns: [n + 1] turns of the outer loop are enough, the
    indices stay inside the sequence, and the intervals are those of the
    runs of [Runs] from index 0. *)
Lemma extract_terminates (pr : list PointResult) :
  exists runs : list (nat * nat),
    Runs pr 0 runs /\
    extract_index_runs pr = Ok runs /\
    _extract_anomaly_intervals pr = Ok (map (interval_of pr) runs).
Proof.
  destruct (scan_while_spec emit_interval (interval_of pr) pr (emit_interval_ok pr)
              (S (length pr)) 0%nat [] []) as (runs & Hruns & Hidx & Hout); [lia..|].
  exists runs. split; [exact Hruns|]. split; assumption.
Qed.

(** The runs read from an index on are determined by the sequence. *)
Lemma Runs_functional (pr : list PointResult) (i : nat) (r1 r2 : list (nat * nat)) :
  Runs pr i r1 -> Runs pr i r2 -> r1 = r2.
Proof.
  intros H1. revert r2.
  induction H1 as [i Hi|i runs Hi Hflag _ IH|i e runs Hie Hall Hstop _ IH];
    intros r2 H2; inversion H2 as [i' Hi'|i' runs' Hi' Hflag' H2'|i' e' runs' Hie' Hall' Hstop' H2'];
    subst; try lia.
  - reflexivity.
  - apply IH, H2'.
  - rewrite Hall' in Hflag by lia. discriminate.
  - rewrite Hall in Hflag' by lia. discriminate.
  - assert (He : e = e').
    { destruct (Nat.lt_trichotomy e e') as [Hlt|[Heq|Hgt]]; [|exact Heq|].
      - rewrite Hall' in Hstop by lia. discriminate.
      - rewrite Hall in Hstop' by lia. discriminate. }
    subst e'. f_equal. apply IH, H2'.
Qed.

(** The bound on the turns of the loops is immaterial: any larger one
    gives the same intervals. *)
Lemma extract_fuel_irrelevant (pr : list PointResult) (fuel : nat) :
  (length pr < fuel)%nat ->
  scan_while emit_interval fuel pr (length pr) 0%nat [] =
  _extract_anomaly_intervals pr.
Proof.
  intros Hfuel.
  destruct (scan_while_spec emit_interval (interval_of pr) pr (emit_interval_ok pr)
              fuel 0%nat [] []) as (r1 & Hr1 & _ & Ho1); [lia..|].
  destruct (scan_while_spec emit_interval (interval_of pr) pr (emit_interval_ok pr)
              (S (length pr)) 0%nat [] []) as (r2 & Hr2 & _ & Ho2); [lia..|].
  unfold _extract_anomaly_intervals. rewrite Ho1, Ho2.
  rewrite (Runs_functional pr 0 r1 r2 Hr1 Hr2). reflexivity.
Qed.

Lemma ascending_weaken (lo lo' : nat) (runs : list (nat * nat)) :
  (lo' <= lo)%nat -> ascending lo runs -> ascending lo' runs.
Proof.
  destruct runs as [|[s e] rest]; cbn [ascending]; [tauto|].
  intros Hlo [Hse Hrest]. split; [lia|exact Hrest].
Qed.

Lemma Runs_ascending (pr : list PointResult) (i : nat) (runs : list (nat * nat)) :
  Runs pr i runs ->
  ascending i runs /\ (flag_at pr i = false -> ascending (S i) runs).
Proof.
  induction 1 as [i Hi|i runs Hi Hflag _ [IH1 IH2]|i e runs Hie Hall Hstop _ [IH1 IH2]].
  - split; [exact I|intros _; exact I].
  - split; [|intros _; exact IH1]. apply (ascending_weaken (S i)); [lia|exact IH1].
  - split.
    + cbn [ascending]. split; [lia|].
      replace (e + 2)%nat with (S (S e)) by lia. apply IH2, Hstop.
    + intros Hflag. rewrite Hall in Hflag by lia. discriminate.
Qed.

Lemma Runs_maximal (pr : list PointResult) (i : nat) (runs : list (nat * nat)) :
  Runs pr i runs ->
  (i = 0%nat \/ flag_at pr (i - 1) = false \/ flag_at pr i = false) ->
  forall s e : nat, In (s, e) runs -> maximal_run pr s e.
Proof.
  induction 1 as [i Hi|i runs Hi Hflag _ IH|i e runs Hie Hall Hstop _ IH];
    intros Hleft s e' Hin.
  - destruct Hin.
  - apply IH; [|exact Hin]. right. left.
    replace (S i - 1)%nat with i by lia. exact Hflag.
  - destruct Hin as [Heq|Hin].
    + injection Heq as <- <-. split; [exact Hie|]. split; [exact Hall|].
      split; [|exact Hstop].
      destruct Hleft as [H0|[Hprev|Hcur]]; [left; exact H0|right; exact Hprev|].
      rewrite Hall in Hcur by lia. discriminate.
    + apply IH; [|exact Hin]. right. right. exact Hstop.
Qed.

Lemma Runs_cover (pr : list PointResult) (i : nat) (runs : list (nat * nat)) :
  Runs pr i runs ->
  forall j : nat, (i <= j)%nat -> flag_at pr j = true ->
  exists s e : nat, In (s, e) runs /\ (s <= j <= e)%nat.
Proof.
  induction 1 as [i Hi|i runs Hi Hflag _ IH|i e runs Hie Hall Hstop _ IH];
    intros j Hj Hfj.
  - apply flag_at_true_lt in Hfj. lia.
  - destruct (decide (j = i)) as [->|Hne]; [congruence|].
    apply IH; [lia|exact Hfj].
  - destruct (Nat.le_gt_cases j e) as [Hle|Hgt].
    + exists i, e. split; [left; reflexivity|lia].
    + destruct (IH j ltac:(lia) Hfj) as (s & e' & Hin & Hse).
      exists s, e'. split; [right; exact Hin|exact Hse].
Qed.

Lemma ascending_lookup (lo : nat) (runs : list (nat * nat)) (k : nat) (r : nat * nat) :
  ascending lo runs -> runs !! k = Some r -> (lo <= fst r <= snd r)%nat.
Proof.
  revert lo k. induction runs as [|[s e] rest IH]; intros lo k Hasc Hk; [discriminate|].
  destruct Hasc as [Hse Hrest]. destruct k as [|k].
  - injection Hk as <-. exact Hse.
  - specialize (IH _ _ Hrest Hk). lia.
Qed.

(** Runs in ascending order: a later run starts at least two indices after
    the end of an earlier one. *)
Lemma ascending_lookup_lt (lo : nat) (runs : list (nat * nat)) (k k' : nat)
    (r r' : nat * nat) :
  ascending lo runs -> (k < k')%nat ->
  runs !! k = Some r -> runs !! k' = Some r' -> (snd r + 2 <= fst r')%nat.
Proof.
  revert lo k k'. induction runs as [|[s e] rest IH]; intros lo k k' Hasc Hlt Hk Hk';
    [discriminate|].
  destruct Hasc as [Hse Hrest]. destruct k' as [|k']; [lia|]. destruct k as [|k].
  - injection Hk as <-. pose proof (ascending_lookup _ _ _ _ Hrest Hk'). cbn [snd]. lia.
  - apply (IH _ k k' Hrest); [lia|exact Hk|exact Hk'].
Qed.

(** Two maximal runs that share an index are the same run. *)
Lemma maximal_run_overlap (pr : list PointResult) (s e s' e' j : nat) :
  maximal_run pr s e -> maximal_run pr s' e' ->
  (s <= j <= e)%nat -> (s' <= j <= e')%nat -> s = s' /\ e = e'.
Proof.
  intros (Hb & Hall & Hleft & Hright) (Hb' & Hall' & Hleft' & Hright') Hj Hj'.
  assert (Hs : s = s').
  { destruct (Nat.lt_trichotomy s s') as [Hlt|[Heq|Hgt]]; [|exact Heq|].
    - destruct Hleft' as [H0|Hprev]; [lia|]. rewrite Hall in Hprev by lia. discriminate.
    - destruct Hleft as [H0|Hprev]; [lia|]. rewrite Hall' in Hprev by lia. discriminate. }
  split; [exact Hs|]. subst s'.
  destruct (Nat.lt_trichotomy e e') as [Hlt|[Heq|Hgt]]; [|exact Heq|].
  - rewrite Hall' in Hright by lia. discriminate.
  - rewrite Hall in Hright' by lia. discriminate.
Qed.

(** The facts about the extractor that the claims build on. *)
Lemma extract_runs_facts (pr : list PointResult) :
  exists runs : list (nat * nat),
    extract_index_runs pr = Ok runs /\
    _extract_anomaly_intervals pr = Ok (map (interval_of pr) runs) /\
    ascending 0 runs /\
    (forall s e : nat, In (s, e) runs -> maximal_run pr s e) /\
    (forall j : nat, flag_at pr j = true ->
       exists s e : nat, In (s, e) runs /\ (s <= j <= e)%nat).
Proof.
  destruct (extract_terminates pr) as (runs & Hruns & Hidx & Hout).
  exists runs. split; [exact Hidx|]. split; [exact Hout|].
  split; [apply (Runs_ascending pr 0 runs Hruns)|]. split.
  - apply (Runs_maximal pr 0 runs Hruns). left. reflexivity.
  - intros j Hj. apply (Runs_cover pr 0 runs Hruns); [lia|exact Hj].
Qed.

(** C2: the extractor returns one interval per maximal run of consecutive
    flagged points, from the timestamp of the run's first point to the
    timestamp of its last, in the order the runs occur; and on the flags
    F,F,T,T,F,T,F,F,T,T,T at timestamps t0..t10 it returns exactly
    (t2,t3), (t5,t5), (t8,t10). *)
Theorem extract_one_interval_per_maximal_run :
  (forall pr : list PointResult,
     exists runs : list (nat * nat),
       extract_index_runs pr = Ok runs /\
       _extract_anomaly_intervals pr = Ok (map (interval_of pr) runs) /\
       (forall s e : nat, In (s, e) runs <-> maximal_run pr s e) /\
       (forall (k k' : nat) (r r' : nat * nat),
          (k < k')%nat -> runs !! k = Some r -> runs !! k' = Some r' ->
          (snd r < fst r')%nat)) /\
  (forall t0 t1 t2 t3 t4 t5 t6 t7 t8 t9 t10 : string,
     _extract_anomaly_intervals
       [point t0 false; point t1 false; point t2 true; point t3 true;
        point t4 false; point t5 true; point t6 false; point t7 false;
        point t8 true; point t9 true; point t10 true] =
     Ok [mkInterval t2 t3; mkInterval t5 t5; mkInterval t8 t10]).
Proof.
  split; [|reflexivity].
  intros pr. destruct (extract_runs_facts pr) as (runs & Hidx & Hout & Hasc & Hmax & Hcov).
  exists runs. split; [exact Hidx|]. split; [exact Hout|]. split.
  - intros s e. split; [apply Hmax|]. intros Hrun.
    destruct Hrun as (Hb & Hall & Hrest).
    destruct (Hcov s) as (s' & e' & Hin & Hse); [apply Hall; lia|].
    destruct (maximal_run_overlap pr s' e' s e s (Hmax _ _ Hin)) as [-> ->];
      [split; [exact Hb|split; [exact Hall|exact Hrest]]|lia|lia|exact Hin].
  - intros k k' r r' Hlt Hk Hk'.
    pose proof (ascending_lookup_lt 0 runs k k' r r' Hasc Hlt Hk Hk'). lia.
Qed.

Lemma lookup_In {A : Type} (l : list A) (k : nat) (x : A) :
  l !! k = Some x -> In x l.
Proof. intros H. apply list_elem_of_In. eapply list_elem_of_lookup_2. exact H. Qed.

Lemma In_lookup {A : Type} (l : list A) (x : A) :
  In x l -> exists k : nat, l !! k = Some x.
Proof. intros H. apply list_elem_of_In in H. apply list_elem_of_lookup_1, H. Qed.

(** C10: the emitted intervals cover the flagged points exactly.  With
    [runs] the index ranges of the intervals, in the order emitted: every
    flagged point lies in exactly one of them; every index of a range is a
    flagged point of the sequence, so the start and end timestamps of an
    interval are those of flagged points; two different ranges are
    disjoint; and between two consecutive ranges there is a non-flagged
    point. *)
Theorem extract_intervals_cover_flagged (pr : list PointResult) :
  exists runs : list (nat * nat),
    extract_index_runs pr = Ok runs /\
    _extract_anomaly_intervals pr = Ok (map (interval_of pr) runs) /\
    (forall i : nat, flag_at pr i = true ->
       exists (k : nat) (r : nat * nat),
         runs !! k = Some r /\ (fst r <= i <= snd r)%nat /\
         forall (k' : nat) (r' : nat * nat),
           runs !! k' = Some r' -> (fst r' <= i <= snd r')%nat -> k' = k) /\
    (forall (k : nat) (r : nat * nat), runs !! k = Some r ->
       (forall j : nat, (fst r <= j <= snd r)%nat -> flag_at pr j = true) /\
       exists a b : PointResult,
         pr !! fst r = Some a /\ pr !! snd r = Some b /\
         is_anomaly a = true /\ is_anomaly b = true /\
         interval_of pr r = mkInterval (timestamp a) (timestamp b)) /\
    (forall (k k' : nat) (r r' : nat * nat),
       k <> k' -> runs !! k = Some r -> runs !! k' = Some r' ->
       (snd r < fst r')%nat \/ (snd r' < fst r)%nat) /\
    (forall (k : nat) (r r' : nat * nat),
       runs !! k = Some r -> runs !! S k = Some r' ->
       exists j : nat, (snd r < j < fst r')%nat /\ flag_at pr j = false).
Proof.
  destruct (extract_runs_facts pr) as (runs & Hidx & Hout & Hasc & Hmax & Hcov).
  assert (Hdisj : forall (k k' : nat) (r r' : nat * nat),
             k <> k' -> runs !! k = Some r -> runs !! k' = Some r' ->
             (snd r < fst r')%nat \/ (snd r' < fst r)%nat).
  { intros k k' r r' Hne Hk Hk'.
    destruct (Nat.lt_trichotomy k k') as [Hlt|[Heq|Hgt]]; [left|congruence|right].
    - pose proof (ascending_lookup_lt 0 runs k k' r r' Hasc Hlt Hk Hk'). lia.
    - pose proof (ascending_lookup_lt 0 runs k' k r' r Hasc Hgt Hk' Hk). lia. }
  exists runs. split; [exact Hidx|]. split; [exact Hout|]. split; [|split; [|split]].
  - intros i Hi. destruct (Hcov i Hi) as (s & e & Hin & Hse).
    destruct (In_lookup runs (s, e) Hin) as [k Hk].
    exists k, (s, e). split; [exact Hk|]. split; [exact Hse|].
    intros k' r' Hk' Hr'. destruct (decide (k' = k)) as [Heq|Hne]; [exact Heq|exfalso].
    destruct (Hdisj k' k r' (s, e) Hne Hk' Hk) as [H|H]; cbn [fst snd] in *; lia.
  - intros k [s e] Hk. cbn [fst snd].
    destruct (Hmax s e (lookup_In runs k (s, e) Hk)) as (Hb & Hall & _).
    split; [exact Hall|].
    destruct (lookup_lt_is_Some_2 pr s ltac:(lia)) as [a Ha].
    destruct (lookup_lt_is_Some_2 pr e ltac:(lia)) as [b Hb'].
    exists a, b. split; [exact Ha|]. split; [exact Hb'|].
    split; [rewrite <- (flag_at_lookup pr s a Ha); apply Hall; lia|].
    split; [rewrite <- (flag_at_lookup pr e b Hb'); apply Hall; lia|].
    unfold interval_of, timestamp_at. cbn [fst snd]. rewrite Ha, Hb'. reflexivity.
  - exact Hdisj.
  - intros k [s e] [s' e'] Hk Hk'. cbn [fst snd].
    pose proof (ascending_lookup_lt 0 runs k (S k) _ _ Hasc ltac:(lia) Hk Hk') as Hgap.
    cbn [fst snd] in Hgap.
    destruct (Hmax s e (lookup_In runs k (s, e) Hk)) as (_ & _ & _ & Hstop).
    exists (S e). split; [lia|exact Hstop].
Qed.

(** The extractor on the sample of C2, with the index ranges of its runs. *)
Example extract_sample_runs :
  extract_index_runs sample_runs = Ok [(2, 3); (5, 5); (8, 10)]%nat /\
  _extract_anomaly_intervals sample_runs =
    Ok [mkInterval "t2" "t3"; mkInterval "t5" "t5"; mkInterval "t8" "t10"].
Proof. split; reflexivity. Qed.

(** ** The [detect] endpoint *)

Lemma detect_handlers_ok {A : Type} (m : traced A) (log : list component) (a : A) :
  detect_handlers m = (log, Ok a) -> m = (log, Ok a).
Proof.
  destruct m as [l [x|[code detail|cls msg]|]]; cbn [detect_handlers]; congruence.
Qed.

Section PipelineProperties.

Variable sort_values : list DataPoint -> list DataPoint.

Variable IsolationForest :
  forall (n_estimators : Z) (contamination : float) (random_state : Z)
         (max_samples : string + Z) (values : list float),
    pyresult (list Z * list float).

(** On a non-empty series the column guard passes and [detect] is the
    scorer followed by the rest of the pipeline, under the handlers. *)
Lemma detect_nonempty (req : DetectRequest) :
  data req <> [] ->
  detect sort_values IsolationForest req =
  detect_handlers
    (tdo point_json <- call PointScorer (scored_points sort_values IsolationForest req);
     detect_after_scoring req point_json).
Proof.
  intros Hne. unfold detect, scored_points, detect_after_scoring.
  destruct (data req) as [|p l] eqn:Hdata; [congruence|].
  cbn [pd_DataFrame columns rows issubset forallb existsb String.eqb Ascii.eqb
       Bool.eqb andb orb negb].
  destruct (run_isolation_forest IsolationForest
              {| columns := ["timestamp"; "value"]; rows := sort_values (p :: l) |}
              (contamination req) (random_state req)) as [anomalies|e|]; reflexivity.
Qed.

(** The aggregator never raises. *)
Lemma segment_summary_total (pr : list PointResult) (rt : float) (st : Z) :
  exists seg : SegmentSummary, _segment_summary pr rt st = Ok seg.
Proof.
  destruct pr as [|p pr]; [eexists; reflexivity|].
  destruct (segment_summary_nonempty (p :: pr) rt st) as (ratio & _ & _ & Hseg);
    [discriminate|].
  eexists. exact Hseg.
Qed.

(** The rest of the pipeline after a successful scoring: it returns a
    response, with the extractor called exactly when the verdict is
    anomalous. *)
Lemma detect_after_scoring_spec (req : DetectRequest) (pj : list PointResult) :
  exists seg : SegmentSummary,
    _segment_summary pj (ratio_threshold req) (streak_threshold req) = Ok seg /\
    if is_segment_anomaly seg then
      exists ivs : list Interval,
        _extract_anomaly_intervals pj = Ok ivs /\
        detect_after_scoring req pj =
          ([SegmentAggregator; IntervalExtractor],
           Ok {| resp_metadata := metadata req;
                 anomalies := map (fun iv => mkAnomaly (iv_start iv) (iv_end iv)) ivs |})
    else
      detect_after_scoring req pj =
        ([SegmentAggregator], Ok {| resp_metadata := metadata req; anomalies := [] |}).
Proof.
  destruct (segment_summary_total pj (ratio_threshold req) (streak_threshold req))
    as [seg Hseg].
  exists seg. split; [exact Hseg|]. unfold detect_after_scoring. rewrite Hseg.
  destruct (is_segment_anomaly seg) eqn:Hanom.
  - destruct (extract_terminates pj) as (runs & _ & _ & Hout).
    eexists. split; [exact Hout|]. cbn [call tbind tret]. rewrite Hanom, Hout.
    reflexivity.
  - cbn [call tbind tret]. rewrite Hanom. reflexivity.
Qed.

(** C5: when [detect] returns a response, the scorer and the aggregator
    have run; if the verdict is non-anomalous the extractor is not called
    and [anomalies] is empty, and if it is anomalous the extractor is called
    once and [anomalies] holds its intervals. *)
Theorem detect_intervals_only_when_anomalous (req : DetectRequest)
    (log : list component) (resp : DetectResponse) :
  detect sort_values IsolationForest req = (log, Ok resp) ->
  exists (pj : list PointResult) (seg : SegmentSummary),
    scored_points sort_values IsolationForest req = Ok pj /\
    _segment_summary pj (ratio_threshold req) (streak_threshold req) = Ok seg /\
    resp_metadata resp = metadata req /\
    if is_segment_anomaly seg then
      log = [PointScorer; SegmentAggregator; IntervalExtractor] /\
      exists ivs : list Interval,
        _extract_anomaly_intervals pj = Ok ivs /\
        anomalies resp = map (fun iv => mkAnomaly (iv_start iv) (iv_end iv)) ivs
    else
      log = [PointScorer; SegmentAggregator] /\
      ~ In IntervalExtractor log /\
      anomalies resp = [].
Proof.
  intros Hdet. destruct (data req) as [|p l] eqn:Hdata.
  - unfold detect in Hdet. rewrite Hdata in Hdet. discriminate.
  - rewrite detect_nonempty in Hdet by congruence.
    apply detect_handlers_ok in Hdet.
    destruct (scored_points sort_values IsolationForest req) as [pj|e|] eqn:Hpj;
      cbn [call tbind] in Hdet; try discriminate.
    destruct (detect_after_scoring_spec req pj) as (seg & Hseg & Hrest).
    exists pj, seg. split; [reflexivity|]. split; [exact Hseg|].
    destruct (is_segment_anomaly seg).
    + destruct Hrest as (ivs & Hivs & Hafter). rewrite Hafter in Hdet.
      injection Hdet as <- <-. split; [reflexivity|]. split; [reflexivity|].
      exists ivs. split; [exact Hivs|reflexivity].
    + rewrite Hrest in Hdet. injection Hdet as <- <-.
      split; [reflexivity|]. split; [reflexivity|]. split; [|reflexivity].
      cbn. intros [H|[H|[]]]; discriminate.
Qed.

(** C6, amended: [detect] validates neither the values nor
    [contamination]: it hands them to the library as they are, and the
    outcome is the library's.  On a non-empty series, an exception of the
    scorer (the one scikit-learn raises for a contamination outside
    (0, 0.5] among them) is surfaced as the server error
    [HTTPException 500] with "detection failed: " before its message;
    [detect] raises no client error of its own; an exception of the
    library on the request's values is the scorer's exception; and when
    the library returns, whatever the values, [detect] returns a
    response. *)
Theorem scorer_exception_is_server_error (req : DetectRequest) :
  data req <> [] ->
  (forall cls msg : string,
     scored_points sort_values IsolationForest req = Raise (PyException cls msg) ->
     detect sort_values IsolationForest req =
       ([PointScorer], Raise (HTTPException 500 ("detection failed: " ++ msg)))) /\
  (forall (log : list component) (code : Z) (detail : string),
     detect sort_values IsolationForest req = (log, Raise (HTTPException code detail)) ->
     code = 500 \/
     scored_points sort_values IsolationForest req = Raise (HTTPException code detail)) /\
  (forall e : exn,
     IsolationForest 200 (contamination req) (random_state req) (inl "auto")
       (map dp_value (sort_values (data req))) = Raise e ->
     scored_points sort_values IsolationForest req = Raise e) /\
  (forall (labels : list Z) (scores : list float),
     IsolationForest 200 (contamination req) (random_state req) (inl "auto")
       (map dp_value (sort_values (data req))) = Ok (labels, scores) ->
     exists (log : list component) (resp : DetectResponse),
       detect sort_values IsolationForest req = (log, Ok resp)).
Proof.
  intros Hne. rewrite detect_nonempty by exact Hne. split; [|split; [|split]].
  - intros cls msg Hraise. rewrite Hraise. reflexivity.
  - intros log code detail Hdet.
    destruct (scored_points sort_values IsolationForest req) as [pj|[c d|cls msg]|] eqn:Hpj;
      cbn [call tbind detect_handlers] in Hdet.
    + destruct (detect_after_scoring_spec req pj) as (seg & _ & Hrest).
      destruct (is_segment_anomaly seg).
      * destruct Hrest as (ivs & _ & Hafter). rewrite Hafter in Hdet. discriminate.
      * rewrite Hrest in Hdet. discriminate.
    + right. congruence.
    + left. congruence.
    + discriminate.
  - intros e Hlib. unfold scored_points, run_isolation_forest, detect_point_anomalies, getcol.
    cbn [columns rows existsb String.eqb Ascii.eqb Bool.eqb orb bind].
    rewrite Hlib. reflexivity.
  - intros labels scores Hlib.
    assert (Hpj : exists pj : list PointResult,
               scored_points sort_values IsolationForest req = Ok pj).
    { unfold scored_points, run_isolation_forest, detect_point_anomalies, getcol.
      cbn [columns rows existsb String.eqb Ascii.eqb Bool.eqb orb bind].
      rewrite Hlib. cbn [bind]. eexists. reflexivity. }
    destruct Hpj as [pj Hpj]. rewrite Hpj. cbn [call tbind].
    destruct (detect_after_scoring_spec req pj) as (seg & _ & Hrest).
    destruct (is_segment_anomaly seg).
    + destruct Hrest as (ivs & _ & Hafter). rewrite Hafter. eexists _, _. reflexivity.
    + rewrite Hrest. eexists _, _. reflexivity.
Qed.

(** C7, amended: a request with an empty series is rejected by the column
    guard with [HTTPException 400] before the scorer is called. *)
Theorem detect_empty_series_rejected (req : DetectRequest) :
  data req = [] ->
  detect sort_values IsolationForest req =
    ([], Raise (HTTPException 400 "data points must include timestamp and value")).
Proof.
  intros Hempty. unfold detect. rewrite Hempty. reflexivity.
Qed.

(** On a frame that has both columns and no row, [run_isolation_forest]
    adds no failure of its own: it returns the empty list when the library
    accepts an empty column and the library's exception otherwise. *)
Lemma run_isolation_forest_no_rows (c : float) (seed : Z) :
  run_isolation_forest IsolationForest (mkDataFrame ["timestamp"; "value"] []) c seed =
  match IsolationForest 200 c seed (inl "auto") [] with
  | Ok _ => Ok []
  | Raise e => Raise e
  | OutOfFuel => OutOfFuel
  end.
Proof.
  unfold run_isolation_forest, detect_point_anomalies, getcol.
  cbn [columns rows existsb String.eqb Ascii.eqb Bool.eqb orb map bind].
  destruct (IsolationForest 200 c seed (inl "auto") []) as [[labels scores]|e|];
    reflexivity.
Qed.

End PipelineProperties.

Lemma detect_intervals_only_when_anomalous_witness :
  detect sort_by_timestamp threshold_forest sample_request_quiet =
    ([PointScorer; SegmentAggregator], Ok {| resp_metadata := None; anomalies := [] |}) /\
  exists (pj : list PointResult) (seg : SegmentSummary),
    scored_points sort_by_timestamp threshold_forest sample_request_quiet = Ok pj /\
    _segment_summary pj (ratio_threshold sample_request_quiet)
      (streak_threshold sample_request_quiet) = Ok seg /\
    resp_metadata {| resp_metadata := None; anomalies := [] |} =
      metadata sample_request_quiet /\
    if is_segment_anomaly seg then
      [PointScorer; SegmentAggregator] = [PointScorer; SegmentAggregator; IntervalExtractor] /\
      exists ivs : list Interval,
        _extract_anomaly_intervals pj = Ok ivs /\
        anomalies {| resp_metadata := None; anomalies := [] |} =
          map (fun iv => mkAnomaly (iv_start iv) (iv_end iv)) ivs
    else
      [PointScorer; SegmentAggregator] = [PointScorer; SegmentAggregator] /\
      ~ In IntervalExtractor [PointScorer; SegmentAggregator] /\
      anomalies {| resp_metadata := None; anomalies := [] |} = [].
Proof.
  split; [vm_compute; reflexivity|].
  apply (detect_intervals_only_when_anomalous sort_by_timestamp threshold_forest
           sample_request_quiet).
  vm_compute. reflexivity.
Defined.

(** An anomalous segment: the two outliers of [sample_request], adjacent
    once the rows are sorted, come back as one interval. *)
Example detect_sample_request :
  detect sort_by_timestamp threshold_forest sample_request =
    ([PointScorer; SegmentAggregator; IntervalExtractor],
     Ok {| resp_metadata := metadata sample_request;
           anomalies := [mkAnomaly "2025-01-01T00:02" "2025-01-01T00:03"] |}).
Proof. vm_compute. reflexivity. Qed.

(** [float_repr] on floats of each kind, with the text Python prints:
    0.7, 0.05, 0.1 + 0.2, 1 / 3, the two ends of the plain notation, a
    subnormal, a negative number and the values that are not numbers. *)
Example float_repr_samples :
  float_repr f64_0_7 = "0.7" /\
  float_repr f64_0_05 = "0.05" /\
  float_repr f64_100 = "100.0" /\
  float_repr (S754_finite false 5404319552844596 (-54)) = "0.30000000000000004" /\
  float_repr (S754_finite false 6004799503160661 (-54)) = "0.3333333333333333" /\
  float_repr (S754_finite false 4999999999999999 1) = "9999999999999998.0" /\
  float_repr (S754_finite false 5000000000000000 1) = "1e+16" /\
  float_repr (S754_finite false 5902958103587057 (-69)) = "1e-05" /\
  float_repr (S754_finite false 8483885939586761 (-36)) = "123456.789" /\
  float_repr (S754_finite false 1 (-1074)) = "5e-324" /\
  float_repr (S754_finite true 5629499534213120 (-51)) = "-2.5" /\
  float_repr (S754_zero true) = "-0.0" /\
  float_repr S754_nan = "nan" /\
  float_repr (S754_infinity true) = "-inf".
Proof. vm_compute. repeat split; reflexivity. Qed.

(** C6 as stated fails: a contamination of 0.7 comes back as the server
    error 500, not as a client error; and a NaN among the values is not
    rejected at all: the code has no check for it, and with a library that
    lets it through the request succeeds. *)
Lemma invalid_input_is_server_error :
  detect sort_by_timestamp threshold_forest sample_request_contamination =
    ([PointScorer],
     Raise (HTTPException 500
              "detection failed: The 'contamination' parameter of IsolationForest must be a str among {'auto'} or a float in the range (0.0, 0.5]. Got 0.7 instead.")) /\
  detect sort_by_timestamp threshold_forest sample_request_nan =
    ([PointScorer; SegmentAggregator],
     Ok {| resp_metadata := None; anomalies := [] |}).
Proof. split; vm_compute; reflexivity. Qed.

Lemma scorer_exception_is_server_error_witness :
  data sample_request_contamination <> [] /\
  (forall cls msg : string,
     scored_points sort_by_timestamp threshold_forest sample_request_contamination =
       Raise (PyException cls msg) ->
     detect sort_by_timestamp threshold_forest sample_request_contamination =
       ([PointScorer], Raise (HTTPException 500 ("detection failed: " ++ msg)))) /\
  (forall (log : list component) (code : Z) (detail : string),
     detect sort_by_timestamp threshold_forest sample_request_contamination =
       (log, Raise (HTTPException code detail)) ->
     code = 500 \/
     scored_points sort_by_timestamp threshold_forest sample_request_contamination =
       Raise (HTTPException code detail)) /\
  (forall e : exn,
     threshold_forest 200 (contamination sample_request_contamination)
       (random_state sample_request_contamination) (inl "auto")
       (map dp_value (sort_by_timestamp (data sample_request_contamination))) = Raise e ->
     scored_points sort_by_timestamp threshold_forest sample_request_contamination =
       Raise e) /\
  (forall (labels : list Z) (scores : list float),
     threshold_forest 200 (contamination sample_request_contamination)
       (random_state sample_request_contamination) (inl "auto")
       (map dp_value (sort_by_timestamp (data sample_request_contamination))) =
       Ok (labels, scores) ->
     exists (log : list component) (resp : DetectResponse),
       detect sort_by_timestamp threshold_forest sample_request_contamination =
         (log, Ok resp)).
Proof.
  split; [discriminate|].
  apply (scorer_exception_is_server_error sort_by_timestamp threshold_forest
           sample_request_contamination).
  discriminate.
Defined.

(** C7 as stated fails: the empty series does not come back as an empty
    result, the request is refused with the client error 400; and the
    scorer itself, with a library that refuses an empty column as
    scikit-learn does, raises on a frame without rows. *)
Lemma empty_series_is_rejected :
  detect sort_by_timestamp threshold_forest sample_request_empty =
    ([], Raise (HTTPException 400 "data points must include timestamp and value")) /\
  run_isolation_forest threshold_forest (mkDataFrame ["timestamp"; "value"] [])
    f64_0_05 42 =
    Raise (PyException "ValueError"
             "Found array with 0 sample(s) (shape=(0, 1)) while a minimum of 1 is required by IsolationForest.").
Proof. split; vm_compute; reflexivity. Qed.

Lemma detect_empty_series_rejected_witness :
  data sample_request_empty = [] /\
  detect sort_by_timestamp threshold_forest sample_request_empty =
    ([], Raise (HTTPException 400 "data points must include timestamp and value")).
Proof.
  split; [reflexivity|].
  apply (detect_empty_series_rejected sort_by_timestamp threshold_forest
           sample_request_empty).
  reflexivity.
Defined.
(** * Further properties *)

(** ** The extractor: termination, counts and lengths *)

Lemma flag_at_fmap (pr : list PointResult) (j : nat) :
  flag_at pr j = true <-> is_anomaly <$> pr !! j = Some true.
Proof.
  unfold flag_at. destruct (pr !! j) as [p|]; cbn; split; intros H; congruence.
Qed.

Lemma count_flagged_cons (p : PointResult) (pr : list PointResult) :
  count_flagged (p :: pr) = Z.b2z (is_anomaly p) + count_flagged pr.
Proof.
  unfold count_flagged, len. cbn [List.filter]. destruct (is_anomaly p); cbn [length Z.b2z]; lia.
Qed.

Lemma count_flagged_drop_step (pr : list PointResult) (i : nat) :
  (i < length pr)%nat ->
  count_flagged (drop i pr) = Z.b2z (flag_at pr i) + count_flagged (drop (S i) pr).
Proof.
  intros Hi. destruct (lookup_lt_is_Some_2 pr i Hi) as [p Hp].
  rewrite (drop_S pr p i Hp), count_flagged_cons, (flag_at_lookup pr i p Hp). reflexivity.
Qed.

Lemma count_flagged_drop_run (pr : list PointResult) (n i : nat) :
  (forall j : nat, (i <= j < i + n)%nat -> flag_at pr j = true) ->
  count_flagged (drop i pr) = Z.of_nat n + count_flagged (drop (i + n) pr).
Proof.
  revert i. induction n as [|n IH]; intros i Hall.
  - replace (i + 0)%nat with i by lia. lia.
  - assert (Hi : flag_at pr i = true) by (apply Hall; lia).
    rewrite count_flagged_drop_step by (apply flag_at_true_lt, Hi).
    rewrite Hi, (IH (S i)) by (intros j Hj; apply Hall; lia).
    replace (S i + n)%nat with (i + S n)%nat by lia. cbn [Z.b2z]. lia.
Qed.

(** The runs read from [i] on hold, together, as many points as there are
    flagged points from [i] on. *)
Lemma Runs_sum_lengths (pr : list PointResult) (i : nat) (runs : list (nat * nat)) :
  Runs pr i runs -> sum_run_lengths runs = count_flagged (drop i pr).
Proof.
  induction 1 as [i Hi|i runs Hi Hflag _ IH|i e runs Hie Hall Hstop _ IH].
  - rewrite drop_ge by lia. reflexivity.
  - rewrite count_flagged_drop_step, Hflag by exact Hi. cbn [Z.b2z]. lia.
  - cbn [sum_run_lengths fold_right]. fold (sum_run_lengths runs). rewrite IH.
    rewrite (count_flagged_drop_run pr (e - i + 1) i) by (intros j Hj; apply Hall; lia).
    replace (i + (e - i + 1))%nat with (S e) by lia.
    unfold run_length. cbn [fst snd]. lia.
Qed.

Lemma Runs_lengths_pos (pr : list PointResult) (i : nat) (runs : list (nat * nat)) :
  Runs pr i runs -> Forall (fun r => 1 <= run_length r) runs.
Proof.
  induction 1 as [i Hi|i runs Hi Hflag _ IH|i e runs Hie Hall Hstop _ IH].
  - constructor.
  - exact IH.
  - constructor; [unfold run_length; cbn [fst snd]; lia|exact IH].
Qed.

Lemma sum_run_lengths_ge_length (runs : list (nat * nat)) :
  Forall (fun r => 1 <= run_length r) runs -> len runs <= sum_run_lengths runs.
Proof.
  induction 1 as [|r runs Hr _ IH]; [reflexivity|].
  unfold len in *. cbn [length sum_run_lengths fold_right]. fold (sum_run_lengths runs). lia.
Qed.

Lemma max_run_length_le_sum (runs : list (nat * nat)) :
  Forall (fun r => 1 <= run_length r) runs -> max_run_length runs <= sum_run_lengths runs.
Proof.
  induction 1 as [|r runs Hr Hall IH]; [reflexivity|].
  unfold max_run_length in *. cbn [map fold_right sum_run_lengths].
  fold (sum_run_lengths runs).
  pose proof (sum_run_lengths_ge_length runs Hall). unfold len in *. lia.
Qed.

Lemma extract_length_le (pr : list PointResult) (ivs : list Interval) :
  _extract_anomaly_intervals pr = Ok ivs -> (length ivs <= length pr)%nat.
Proof.
  intros Hivs. destruct (extract_terminates pr) as (runs & Hruns & _ & Hout).
  rewrite Hout in Hivs. injection Hivs as <-. rewrite length_map.
  pose proof (Runs_sum_lengths pr 0 runs Hruns) as Hsum.
  pose proof (sum_run_lengths_ge_length runs (Runs_lengths_pos pr 0 runs Hruns)) as Hlen.
  pose proof (count_flagged_bounds pr) as Hc. rewrite drop_0 in Hsum.
  unfold len in *. lia.
Qed.

(** X1: the extractor always returns a list, whatever the flags: its two
    loops end within [n + 1] turns of the outer one, no index leaves the
    sequence, and a larger bound on the turns gives the same list; there
    are at most as many intervals as points. *)
Theorem extract_always_returns (pr : list PointResult) :
  exists ivs : list Interval,
    _extract_anomaly_intervals pr = Ok ivs /\
    (length ivs <= length pr)%nat /\
    forall fuel : nat, (length pr < fuel)%nat ->
      scan_while emit_interval fuel pr (length pr) 0%nat [] = Ok ivs.
Proof.
  destruct (extract_terminates pr) as (runs & Hruns & _ & Hout).
  exists (map (interval_of pr) runs). split; [exact Hout|]. split.
  - apply extract_length_le, Hout.
  - intros fuel Hfuel. rewrite extract_fuel_irrelevant by exact Hfuel. exact Hout.
Qed.

(** X2: the index ranges of the intervals hold exactly the flagged points:
    their lengths add up to the number of flagged points, each holds at
    least one point, so there are at most as many intervals as flagged
    points. *)
Theorem extract_lengths_sum_to_count (pr : list PointResult) :
  exists runs : list (nat * nat),
    extract_index_runs pr = Ok runs /\
    _extract_anomaly_intervals pr = Ok (map (interval_of pr) runs) /\
    sum_run_lengths runs = count_flagged pr /\
    Forall (fun r => 1 <= run_length r) runs /\
    len runs <= count_flagged pr.
Proof.
  destruct (extract_terminates pr) as (runs & Hruns & Hidx & Hout).
  exists runs. split; [exact Hidx|]. split; [exact Hout|].
  pose proof (Runs_sum_lengths pr 0 runs Hruns) as Hsum. rewrite drop_0 in Hsum.
  pose proof (Runs_lengths_pos pr 0 runs Hruns) as Hpos.
  split; [exact Hsum|]. split; [exact Hpos|].
  rewrite <- Hsum. apply sum_run_lengths_ge_length, Hpos.
Qed.

Lemma none_flagged_count (pr : list PointResult) :
  Forall (fun p => is_anomaly p = false) pr -> count_flagged pr = 0.
Proof.
  intros Hnone. unfold count_flagged, len.
  induction Hnone as [|p pr Hp _ IH]; [reflexivity|].
  cbn [List.filter]. rewrite Hp. exact IH.
Qed.

Lemma extract_nil_none_flagged (pr : list PointResult) :
  _extract_anomaly_intervals pr = Ok [] ->
  Forall (fun p => is_anomaly p = false) pr.
Proof.
  destruct (extract_runs_facts pr) as (runs & _ & Hout & _ & _ & Hcov).
  rewrite Hout. intros Hnil.
  assert (runs = []) by (destruct runs; [reflexivity|discriminate]).
  subst runs. apply Forall_forall. intros p Hp.
  apply list_elem_of_lookup_1 in Hp. destruct Hp as [j Hj].
  destruct (is_anomaly p) eqn:Hflag; [exfalso|reflexivity].
  destruct (Hcov j) as (s & e & Hin & _); [|destruct Hin].
  rewrite (flag_at_lookup pr j p Hj). exact Hflag.
Qed.

Lemma none_flagged_extract_nil (pr : list PointResult) :
  Forall (fun p => is_anomaly p = false) pr ->
  _extract_anomaly_intervals pr = Ok [].
Proof.
  destruct (extract_runs_facts pr) as (runs & _ & Hout & _ & Hmax & _).
  rewrite Hout. intros Hall. destruct runs as [|[s e] runs]; [reflexivity|exfalso].
  destruct (Hmax s e) as (Hb & Hrun & _); [left; reflexivity|].
  assert (Hs : flag_at pr s = true) by (apply Hrun; lia).
  unfold flag_at in Hs. destruct (pr !! s) as [p|] eqn:Hp; [|discriminate].
  rewrite Forall_forall in Hall. rewrite (Hall p) in Hs; [discriminate|].
  eapply list_elem_of_lookup_2. exact Hp.
Qed.

(** X3: the extractor returns no interval exactly when no point is
    flagged. *)
Theorem extract_empty_iff_none_flagged (pr : list PointResult) :
  _extract_anomaly_intervals pr = Ok [] <->
  Forall (fun p => is_anomaly p = false) pr.
Proof.
  split; [apply extract_nil_none_flagged|apply none_flagged_extract_nil].
Qed.


(** ** The aggregator and the extractor together *)

Lemma fold_max_nonneg (xs : list Z) : 0 <= fold_right Z.max 0 xs.
Proof. induction xs as [|x xs IH]; cbn [fold_right]; lia. Qed.

Lemma fold_max_le (xs : list Z) (M : Z) :
  0 <= M -> Forall (fun x => x <= M) xs -> fold_right Z.max 0 xs <= M.
Proof.
  intros HM. induction 1 as [|x xs Hx _ IH]; cbn [fold_right]; lia.
Qed.

Lemma maximal_run_flagged_run (pr : list PointResult) (s e : nat) :
  maximal_run pr s e -> flagged_run pr s (e - s + 1).
Proof.
  intros (Hb & Hall & _) j Hj. apply flag_at_fmap, Hall. lia.
Qed.

(** The longest of the extracted runs is as long as the largest value of
    the running counter. *)
Lemma max_run_length_streak (pr : list PointResult) (runs : list (nat * nat)) :
  (forall s e : nat, In (s, e) runs -> maximal_run pr s e) ->
  (forall j : nat, flag_at pr j = true ->
     exists s e : nat, In (s, e) runs /\ (s <= j <= e)%nat) ->
  max_run_length runs = max_running_counter (map is_anomaly pr).
Proof.
  intros Hmax Hcov. set (M := max_running_counter (map is_anomaly pr)).
  pose proof (max_running_counter_bounds (map is_anomaly pr)) as HM. fold M in HM.
  apply Z.le_antisymm.
  - apply fold_max_le; [lia|]. apply Forall_forall. intros x Hx.
    apply list_elem_of_In, in_map_iff in Hx. destruct Hx as ([s e] & <- & Hin).
    pose proof (Hmax s e Hin) as Hrun. pose proof Hrun as (Hb & _).
    apply maximal_run_flagged_run in Hrun.
    assert (Z.of_nat (e - s + 1) <= M)
      by (apply max_streak_run_iff; [lia|exists s; exact Hrun]).
    unfold run_length. cbn [fst snd]. lia.
  - destruct (Z.eq_dec M 0) as [H0|Hpos].
    + rewrite H0. apply fold_max_nonneg.
    + assert (Hk : Z.of_nat (Z.to_nat M) <= M) by lia.
      apply max_streak_run_iff in Hk; [|lia]. destruct Hk as (s & Hrun).
      assert (Hs : flag_at pr s = true) by (apply flag_at_fmap, Hrun; lia).
      destruct (Hcov s Hs) as (s' & e' & Hin & Hse).
      destruct (Hmax s' e' Hin) as (Hb & _ & _ & Hstop).
      assert (He : (s + Z.to_nat M <= S e')%nat).
      { destruct (Nat.le_gt_cases (s + Z.to_nat M) (S e')) as [Hle|Hgt]; [exact Hle|exfalso].
        assert (Hf : flag_at pr (S e') = true) by (apply flag_at_fmap, Hrun; lia).
        congruence. }
      assert (Hlen : M <= run_length (s', e')) by (unfold run_length; cbn [fst snd]; lia).
      pose proof (fold_max_ge (map run_length runs) (run_length (s', e'))
                    (in_map run_length runs (s', e') Hin)) as Hge.
      unfold max_run_length. lia.
Qed.

(** X4: the two components agree on the longest run: the streak the
    aggregator reports is the length of the longest interval the extractor
    emits (0 when it emits none). *)
Theorem longest_interval_is_max_streak (pr : list PointResult) (rt : float) (st : Z) :
  exists runs : list (nat * nat),
    extract_index_runs pr = Ok runs /\
    _extract_anomaly_intervals pr = Ok (map (interval_of pr) runs) /\
    fst (streak_loop (map is_anomaly pr)) = max_run_length runs /\
    forall seg : SegmentSummary,
      pr <> [] -> _segment_summary pr rt st = Ok seg ->
      max_consecutive_anomaly seg = Some (max_run_length runs).
Proof.
  destruct (extract_runs_facts pr) as (runs & Hidx & Hout & _ & Hmax & Hcov).
  pose proof (max_run_length_streak pr runs Hmax Hcov) as Hlen.
  exists runs. split; [exact Hidx|]. split; [exact Hout|]. split.
  - rewrite streak_loop_spec. cbn [fst]. symmetry. exact Hlen.
  - intros seg Hne Hseg.
    destruct (segment_summary_nonempty pr rt st Hne) as (ratio & _ & _ & Heq).
    rewrite Heq in Hseg. injection Hseg as <-. cbn [max_consecutive_anomaly].
    rewrite Hlen. reflexivity.
Qed.

Lemma max_streak_le_count (pr : list PointResult) :
  max_running_counter (map is_anomaly pr) <= count_flagged pr /\
  (max_running_counter (map is_anomaly pr) = 0 <-> count_flagged pr = 0).
Proof.
  destruct (extract_terminates pr) as (runs & Hruns & _ & _).
  destruct (extract_runs_facts pr) as (runs' & Hidx' & _ & _ & Hmax & Hcov).
  pose proof (Runs_sum_lengths pr 0 runs Hruns) as Hsum. rewrite drop_0 in Hsum.
  pose proof (Runs_lengths_pos pr 0 runs Hruns) as Hpos.
  assert (runs' = runs).
  { destruct (extract_terminates pr) as (r2 & Hr2 & Hidx2 & _).
    rewrite Hidx' in Hidx2. injection Hidx2 as ->.
    apply (Runs_functional pr 0 r2 runs Hr2 Hruns). }
  subst runs'. pose proof (max_run_length_streak pr runs Hmax Hcov) as Hlen.
  pose proof (max_run_length_le_sum runs Hpos) as Hle.
  pose proof (max_running_counter_bounds (map is_anomaly pr)) as Hb.
  rewrite <- Hlen, <- Hsum. split; [exact Hle|]. split.
  - intros H0. destruct Hpos as [|r rest Hr Hrest]; [reflexivity|exfalso].
    unfold max_run_length in H0. cbn [map fold_right] in H0.
    pose proof (fold_max_nonneg (map run_length rest)). lia.
  - intros H0. pose proof (fold_max_nonneg (map run_length runs)).
    unfold max_run_length in *. lia.
Qed.

(** X5: the streak never exceeds the number of flagged points, and it is 0
    exactly when no point is flagged. *)
Theorem streak_at_most_flagged_count (pr : list PointResult) (rt : float) (st : Z)
    (seg : SegmentSummary) (streak : Z) :
  _segment_summary pr rt st = Ok seg ->
  max_consecutive_anomaly seg = Some streak ->
  0 <= streak <= count_flagged pr /\ (streak = 0 <-> count_flagged pr = 0).
Proof.
  intros Hseg Hstreak.
  assert (Hne : pr <> []).
  { intros ->. cbn in Hseg. injection Hseg as <-. discriminate. }
  destruct (segment_summary_nonempty pr rt st Hne) as (ratio & _ & _ & Heq).
  rewrite Heq in Hseg. injection Hseg as <-. cbn [max_consecutive_anomaly] in Hstreak.
  injection Hstreak as <-.
  pose proof (max_streak_le_count pr) as [Hle Hiff].
  pose proof (max_running_counter_bounds (map is_anomaly pr)) as Hb.
  split; [lia|exact Hiff].
Qed.

Lemma streak_at_most_flagged_count_witness :
  _segment_summary sample_streak f64_0_2 20 =
    Ok {| is_segment_anomaly := true;
          reason := None;
          anomaly_ratio := Some (S754_finite false 5404319552844595 (-54));
          max_consecutive_anomaly := Some 3;
          rules := mkRules f64_0_2 20 |} /\
  0 <= 3 <= count_flagged sample_streak /\ (3 = 0 <-> count_flagged sample_streak = 0).
Proof.
  split; [vm_compute; reflexivity|].
  apply (streak_at_most_flagged_count sample_streak f64_0_2 20
           {| is_segment_anomaly := true;
              reason := None;
              anomaly_ratio := Some (S754_finite false 5404319552844595 (-54));
              max_consecutive_anomaly := Some 3;
              rules := mkRules f64_0_2 20 |} 3).
  - vm_compute. reflexivity.
  - reflexivity.
Defined.

(** ** Thresholds as the caller gives them *)

(** X6: the aggregator returns a dict on every input, whatever the
    thresholds (NaN, infinite, negative): it echoes them under "rules", and
    the sequence is empty exactly when the reason is "empty", exactly when
    the ratio key is absent. *)
Theorem segment_summary_never_raises (pr : list PointResult) (rt : float) (st : Z) :
  exists seg : SegmentSummary,
    _segment_summary pr rt st = Ok seg /\
    rules seg = mkRules rt st /\
    (reason seg = Some "empty" <-> pr = []) /\
    (anomaly_ratio seg = None <-> pr = []) /\
    (max_consecutive_anomaly seg = None <-> pr = []).
Proof.
  destruct pr as [|p pr].
  - eexists. split; [reflexivity|]. cbn. repeat split; reflexivity.
  - destruct (segment_summary_nonempty (p :: pr) rt st ltac:(discriminate))
      as (ratio & _ & _ & Hseg).
    eexists. split; [exact Hseg|]. cbn [rules reason anomaly_ratio max_consecutive_anomaly].
    split; [reflexivity|]. repeat split; intros H; discriminate.
Qed.

Lemma float_ge_nonpositive (ratio rt : float) :
  nonneg_canonical ratio -> float_nonpositive rt -> float_ge ratio rt = true.
Proof.
  destruct ratio as [s| | |[|] m e], rt as [s'|[|]| |[|] m' e'];
    cbn [nonneg_canonical float_nonpositive]; try tauto; intros _ _; reflexivity.
Qed.

Lemma float_ge_above_one (ratio rt : float) :
  nonneg_canonical ratio -> float_le ratio one = true ->
  rt = S754_nan \/ rt = S754_infinity false \/
    (nonneg_canonical rt /\ float_le rt one = false) ->
  float_ge ratio rt = false.
Proof.
  intros Hc H1 [->|[->|[Hrt Hgt]]].
  - destruct ratio as [s|s| |s m e]; reflexivity.
  - destruct ratio as [s| | |[|] m e]; cbn [nonneg_canonical] in Hc; try tauto; reflexivity.
  - assert (Hone : nonneg_canonical one) by (cbn; lia).
    apply (le_canonical ratio one Hc Hone) in H1.
    destruct (float_ge ratio rt) eqn:Hge; [exfalso|reflexivity].
    unfold float_ge in Hge. fold (float_le rt ratio) in Hge.
    apply (le_canonical rt ratio Hrt Hc) in Hge.
    assert (Hle : float_le rt one = true) by (apply (le_canonical rt one Hrt Hone); lia).
    congruence.
Qed.

(** X7: thresholds are used as given, without clamping.  On a non-empty
    sequence a streak threshold of 0 or less, or a ratio threshold of 0.0 or
    less, makes the verdict anomalous whatever the flags; a ratio threshold
    that is NaN, plus infinity or above 1.0 leaves the streak rule alone;
    and a streak threshold above the length leaves the ratio rule alone. *)
Theorem thresholds_are_not_clamped (pr : list PointResult) (rt : float) (st : Z) :
  pr <> [] ->
  exists (seg : SegmentSummary) (ratio : float) (streak : Z),
    _segment_summary pr rt st = Ok seg /\
    anomaly_ratio seg = Some ratio /\
    max_consecutive_anomaly seg = Some streak /\
    (st <= 0 -> is_segment_anomaly seg = true) /\
    (float_nonpositive rt -> is_segment_anomaly seg = true) /\
    (rt = S754_nan \/ rt = S754_infinity false \/
       (nonneg_canonical rt /\ float_le rt one = false) ->
     is_segment_anomaly seg = (streak >=? st)) /\
    (len pr < st -> is_segment_anomaly seg = float_ge ratio rt).
Proof.
  intros Hne. destruct (segment_summary_nonempty pr rt st Hne) as (ratio & Hr & Hcan & Hseg).
  pose proof (max_running_counter_bounds (map is_anomaly pr)) as Hb.
  unfold len in Hb. rewrite length_map in Hb. fold (len pr) in Hb.
  pose proof (len_pos pr Hne) as Hlen. pose proof (count_flagged_bounds pr) as Hc.
  eexists _, ratio, _. split; [exact Hseg|].
  cbn [anomaly_ratio max_consecutive_anomaly is_segment_anomaly].
  split; [reflexivity|]. split; [reflexivity|]. split; [|split; [|split]].
  - intros Hst. apply orb_true_iff. right. apply Z.geb_le. lia.
  - intros Hrt. rewrite float_ge_nonpositive by assumption. reflexivity.
  - intros Hrt. rewrite float_ge_above_one; [reflexivity|exact Hcan| |exact Hrt].
    destruct (int_truediv_unit_interval (count_flagged pr) (len pr)) as (r & Hr' & _ & H1);
      [lia..|]. rewrite Hr in Hr'. injection Hr' as <-. exact H1.
  - intros Hst. replace (max_running_counter (map is_anomaly pr) >=? st) with false.
    + apply orb_false_r.
    + symmetry. rewrite Z.geb_leb. apply Z.leb_gt. lia.
Qed.

Lemma thresholds_are_not_clamped_witness :
  sample_streak <> [] /\
  exists (seg : SegmentSummary) (ratio : float) (streak : Z),
    _segment_summary sample_streak S754_nan 0 = Ok seg /\
    anomaly_ratio seg = Some ratio /\
    max_consecutive_anomaly seg = Some streak /\
    (0 <= 0 -> is_segment_anomaly seg = true) /\
    (float_nonpositive S754_nan -> is_segment_anomaly seg = true) /\
    (S754_nan = S754_nan \/ S754_nan = S754_infinity false \/
       (nonneg_canonical S754_nan /\ float_le S754_nan one = false) ->
     is_segment_anomaly seg = (streak >=? 0)) /\
    (len sample_streak < 0 -> is_segment_anomaly seg = float_ge ratio S754_nan).
Proof.
  split; [discriminate|].
  apply (thresholds_are_not_clamped sample_streak S754_nan 0). discriminate.
Defined.

(** X8: with a ratio threshold that is not at or below 0.0 and a streak
    threshold of at least 1, an anomalous verdict means that some point is
    flagged, so the extractor returns at least one interval. *)
Theorem anomalous_verdict_has_interval (pr : list PointResult) (rt : float) (st : Z)
    (seg : SegmentSummary) :
  float_le rt zero = false -> 1 <= st ->
  _segment_summary pr rt st = Ok seg ->
  is_segment_anomaly seg = true ->
  0 < count_flagged pr /\
  exists (iv : Interval) (ivs : list Interval),
    _extract_anomaly_intervals pr = Ok (iv :: ivs).
Proof.
  intros Hrt Hst Hseg Hanom.
  assert (Hne : pr <> []).
  { intros ->. cbn in Hseg. injection Hseg as <-. discriminate. }
  destruct (segment_summary_nonempty pr rt st Hne) as (ratio & Hr & _ & Heq).
  rewrite Heq in Hseg. injection Hseg as <-. cbn [is_segment_anomaly] in Hanom.
  pose proof (count_flagged_bounds pr) as Hc. pose proof (len_pos pr Hne) as Hlen.
  pose proof (max_streak_le_count pr) as [Hle Hiff].
  assert (Hpos : 0 < count_flagged pr).
  { destruct (Z.eq_dec (count_flagged pr) 0) as [H0|Hn0]; [exfalso|lia].
    rewrite H0, int_truediv_zero in Hr by lia. injection Hr as <-.
    apply orb_true_iff in Hanom. destruct Hanom as [Hge|Hge].
    - unfold float_ge in Hge. unfold float_le in Hrt. congruence.
    - apply Z.geb_le in Hge. apply Hiff in H0. lia. }
  split; [exact Hpos|].
  destruct (extract_terminates pr) as (runs & _ & _ & Hout).
  destruct (map (interval_of pr) runs) as [|iv ivs]; [exfalso|exists iv, ivs; exact Hout].
  apply extract_nil_none_flagged, none_flagged_count in Hout. lia.
Qed.

Lemma anomalous_verdict_has_interval_witness :
  float_le f64_0_2 zero = false /\ 1 <= 3 /\
  _segment_summary sample_streak f64_0_2 3 =
    Ok {| is_segment_anomaly := true;
          reason := None;
          anomaly_ratio := Some (S754_finite false 5404319552844595 (-54));
          max_consecutive_anomaly := Some 3;
          rules := mkRules f64_0_2 3 |} /\
  0 < count_flagged sample_streak /\
  exists (iv : Interval) (ivs : list Interval),
    _extract_anomaly_intervals sample_streak = Ok (iv :: ivs).
Proof.
  split; [reflexivity|]. split; [lia|]. split; [vm_compute; reflexivity|].
  apply (anomalous_verdict_has_interval sample_streak f64_0_2 3
           {| is_segment_anomaly := true;
              reason := None;
              anomaly_ratio := Some (S754_finite false 5404319552844595 (-54));
              max_consecutive_anomaly := Some 3;
              rules := mkRules f64_0_2 3 |}).
  - reflexivity.
  - lia.
  - vm_compute. reflexivity.
  - reflexivity.
Defined.

(** X9: an anomalous verdict does not imply an interval: with a ratio
    threshold of 0.0 or less, or a streak threshold of 0 or less, a
    non-empty sequence without any flagged point is anomalous and the
    extractor returns no interval. *)
Theorem anomalous_verdict_without_interval (pr : list PointResult) (rt : float) (st : Z) :
  pr <> [] ->
  float_nonpositive rt \/ st <= 0 ->
  Forall (fun p => is_anomaly p = false) pr ->
  exists seg : SegmentSummary,
    _segment_summary pr rt st = Ok seg /\
    is_segment_anomaly seg = true /\
    anomaly_ratio seg = Some zero /\
    max_consecutive_anomaly seg = Some 0 /\
    _extract_anomaly_intervals pr = Ok [].
Proof.
  intros Hne Hthr Hnone.
  pose proof (none_flagged_count pr Hnone) as Hcount.
  pose proof (proj2 (proj2 (max_streak_le_count pr)) Hcount) as Hstreak.
  destruct (segment_summary_nonempty pr rt st Hne) as (r & Hr & Hcan & Heq).
  eexists. split; [exact Heq|].
  cbn [is_segment_anomaly anomaly_ratio max_consecutive_anomaly].
  split; [|split; [|split]].
  - destruct Hthr as [H|H].
    + rewrite float_ge_nonpositive by assumption. reflexivity.
    + apply orb_true_iff. right. apply Z.geb_le. lia.
  - rewrite Hcount, int_truediv_zero in Hr by (apply len_pos, Hne).
    injection Hr as <-. reflexivity.
  - f_equal. exact Hstreak.
  - apply none_flagged_extract_nil, Hnone.
Qed.

Lemma anomalous_verdict_without_interval_witness :
  [point "t0" false; point "t1" false] <> [] /\
  (float_nonpositive zero \/ 20 <= 0) /\
  Forall (fun p => is_anomaly p = false) [point "t0" false; point "t1" false] /\
  exists seg : SegmentSummary,
    _segment_summary [point "t0" false; point "t1" false] zero 20 = Ok seg /\
    is_segment_anomaly seg = true /\
    anomaly_ratio seg = Some zero /\
    max_consecutive_anomaly seg = Some 0 /\
    _extract_anomaly_intervals [point "t0" false; point "t1" false] = Ok [].
Proof.
  split; [discriminate|]. split; [left; exact I|].
  split; [repeat constructor|].
  apply (anomalous_verdict_without_interval [point "t0" false; point "t1" false] zero 20).
  - discriminate.
  - left. exact I.
  - repeat constructor.
Defined.

Lemma valid_nonneg_canonical (m : positive) (e : Z) :
  valid_binary prec emax (S754_finite false m e) = true ->
  nonneg_canonical (S754_finite false m e).
Proof.
  cbn [valid_binary nonneg_canonical]. unfold bounded, canonical_mantissa.
  intros H. apply andb_true_iff in H. destruct H as [Hc _]. apply Z.eqb_eq in Hc.
  rewrite digits2_pos_log2 in Hc.
  pose proof (Z.log2_spec (Z.pos m) ltac:(lia)) as [Hl1 Hl2].
  pose proof (Z.log2_nonneg (Z.pos m)) as Hl0.
  unfold fexp, emin, emax, prec in Hc.
  destruct (Z.max_spec (Z.log2 (Z.pos m) + 1 + e - 53) (3 - 1024 - 53)) as [[Hlt Hmax]|[Hle Hmax]];
    rewrite Hmax in Hc.
  - assert (Hl : Z.log2 (Z.pos m) <= 52) by lia.
    assert (2 ^ Z.succ (Z.log2 (Z.pos m)) <= 2 ^ 53) by (apply Z.pow_le_mono_r; lia).
    split; [lia|]. split; [lia|]. left. lia.
  - assert (Hl : Z.log2 (Z.pos m) = 52) by lia. rewrite Hl in *.
    change (Z.succ 52) with 53 in Hl2. split; [lia|]. split; [lia|]. right. exact Hl1.
Qed.

(** Raising a valid non-negative ratio threshold can only switch the ratio
    rule off. *)
Lemma float_ge_antitone (ratio rt rt' : float) :
  nonneg_canonical ratio ->
  valid_binary prec emax rt = true -> valid_binary prec emax rt' = true ->
  float_le zero rt = true -> float_le rt rt' = true ->
  float_ge ratio rt' = true -> float_ge ratio rt = true.
Proof.
  intros Hc Hv Hv' H0 Hle Hge. unfold float_ge, float_le in *.
  destruct rt as [s|[|]| |[|] m e]; try (cbn in H0; discriminate).
  - destruct ratio as [?|?| |[|] ? ?]; cbn in Hc; try tauto; reflexivity.
  - destruct rt' as [s'|[|]| |[|] m' e']; try (cbn in Hle; discriminate).
    destruct ratio as [?|?| |[|] ? ?]; cbn in Hc; try tauto; cbn in Hge; discriminate.
  - destruct rt' as [s'|[|]| |[|] m' e']; try (cbn in Hle; discriminate).
    + destruct ratio as [?|?| |[|] ? ?]; cbn in Hc; try tauto; cbn in Hge; discriminate.
    + apply valid_nonneg_canonical in Hv, Hv'.
      fold (float_le (S754_finite false m e) ratio).
      fold (float_le (S754_finite false m e) (S754_finite false m' e')) in Hle.
      fold (float_le (S754_finite false m' e') ratio) in Hge.
      apply (le_canonical _ _ Hv Hv') in Hle. apply (le_canonical _ _ Hv' Hc) in Hge.
      apply (le_canonical _ _ Hv Hc). lia.
Qed.

(** X10: the verdict can only go from anomalous to non-anomalous when the
    thresholds are raised: for valid non-negative ratio thresholds
    [rt <= rt'] and streak thresholds [st <= st'], a sequence anomalous
    under [(rt', st')] is anomalous under [(rt, st)]. *)
Theorem verdict_antitone_in_thresholds (pr : list PointResult) (rt rt' : float)
    (st st' : Z) :
  valid_binary prec emax rt = true -> valid_binary prec emax rt' = true ->
  float_le zero rt = true -> float_le rt rt' = true -> st <= st' ->
  exists seg seg' : SegmentSummary,
    _segment_summary pr rt st = Ok seg /\
    _segment_summary pr rt' st' = Ok seg' /\
    (is_segment_anomaly seg' = true -> is_segment_anomaly seg = true).
Proof.
  intros Hv Hv' H0 Hle Hst.
  destruct pr as [|p pr]; [eexists _, _; split; [reflexivity|split; [reflexivity|]]; cbn; congruence|].
  destruct (segment_summary_nonempty (p :: pr) rt st ltac:(discriminate))
    as (ratio & Hr & Hcan & Heq).
  destruct (segment_summary_nonempty (p :: pr) rt' st' ltac:(discriminate))
    as (ratio' & Hr' & _ & Heq').
  rewrite Hr in Hr'. injection Hr' as <-.
  eexists _, _. split; [exact Heq|]. split; [exact Heq'|].
  cbn [is_segment_anomaly]. intros Hanom.
  apply orb_true_iff in Hanom. apply orb_true_iff.
  destruct Hanom as [Hge|Hge].
  - left. apply (float_ge_antitone ratio rt rt'); assumption.
  - right. apply Z.geb_le in Hge. apply Z.geb_le. lia.
Qed.

Lemma verdict_antitone_in_thresholds_witness :
  valid_binary prec emax f64_0_2 = true /\ valid_binary prec emax f64_0_5 = true /\
  float_le zero f64_0_2 = true /\ float_le f64_0_2 f64_0_5 = true /\ 2 <= 3 /\
  exists seg seg' : SegmentSummary,
    _segment_summary sample_streak f64_0_2 2 = Ok seg /\
    _segment_summary sample_streak f64_0_5 3 = Ok seg' /\
    (is_segment_anomaly seg' = true -> is_segment_anomaly seg = true).
Proof.
  split; [reflexivity|]. split; [reflexivity|]. split; [reflexivity|].
  split; [reflexivity|]. split; [lia|].
  apply (verdict_antitone_in_thresholds sample_streak f64_0_2 f64_0_5 2 3);
    [reflexivity..|lia].
Defined.

(** ** Order of the intervals *)

Lemma interval_of_lookup (pr : list PointResult) (runs : list (nat * nat))
    (k : nat) (iv : Interval) :
  map (interval_of pr) runs !! k = Some iv ->
  exists r : nat * nat, runs !! k = Some r /\ iv = interval_of pr r.
Proof.
  rewrite lookup_map. destruct (runs !! k) as [r|]; cbn; [|discriminate].
  intros H. injection H as <-. exists r. split; reflexivity.
Qed.

(** X11: the intervals inherit the order of the sequence.  For any
    relation [R] that holds between the timestamps of an earlier and a
    later point ([<=] on a sorted sequence), every interval has
    [R start end] and two consecutive intervals have [R] from the end of
    the first to the start of the second. *)
Theorem extract_intervals_ordered (R : string -> string -> Prop)
    (pr : list PointResult) :
  (forall (i j : nat) (a b : PointResult),
     (i <= j)%nat -> pr !! i = Some a -> pr !! j = Some b ->
     R (timestamp a) (timestamp b)) ->
  exists ivs : list Interval,
    _extract_anomaly_intervals pr = Ok ivs /\
    Forall (fun iv => R (iv_start iv) (iv_end iv)) ivs /\
    forall (k : nat) (iv iv' : Interval),
      ivs !! k = Some iv -> ivs !! S k = Some iv' -> R (iv_end iv) (iv_start iv').
Proof.
  intros Hsorted.
  destruct (extract_runs_facts pr) as (runs & _ & Hout & Hasc & Hmax & _).
  assert (Hts : forall s e : nat, (s <= e < length pr)%nat ->
            R (timestamp_at pr s) (timestamp_at pr e)).
  { intros s e Hse. unfold timestamp_at.
    destruct (lookup_lt_is_Some_2 pr s ltac:(lia)) as [a Ha].
    destruct (lookup_lt_is_Some_2 pr e ltac:(lia)) as [b Hb].
    rewrite Ha, Hb. apply (Hsorted s e a b); [lia|exact Ha|exact Hb]. }
  exists (map (interval_of pr) runs). split; [exact Hout|]. split.
  - apply Forall_forall. intros iv Hiv.
    apply list_elem_of_In, in_map_iff in Hiv. destruct Hiv as ([s e] & <- & Hin).
    destruct (Hmax s e Hin) as (Hb & _). cbn [interval_of iv_start iv_end fst snd].
    apply Hts. lia.
  - intros k iv iv' Hk Hk'.
    apply interval_of_lookup in Hk, Hk'.
    destruct Hk as ([s e] & Hr & ->), Hk' as ([s' e'] & Hr' & ->).
    cbn [interval_of iv_start iv_end fst snd].
    pose proof (ascending_lookup_lt 0 runs k (S k) _ _ Hasc ltac:(lia) Hr Hr') as Hgap.
    cbn [fst snd] in Hgap.
    destruct (Hmax s' e' (lookup_In runs (S k) (s', e') Hr')) as (Hb' & _).
    apply Hts. lia.
Qed.

Lemma extract_intervals_ordered_witness :
  (forall (i j : nat) (a b : PointResult),
     (i <= j)%nat -> [point "t1" true; point "t2" true; point "t3" false] !! i = Some a ->
     [point "t1" true; point "t2" true; point "t3" false] !! j = Some b ->
     String.leb (timestamp a) (timestamp b) = true) /\
  exists ivs : list Interval,
    _extract_anomaly_intervals [point "t1" true; point "t2" true; point "t3" false] = Ok ivs /\
    Forall (fun iv => String.leb (iv_start iv) (iv_end iv) = true) ivs /\
    forall (k : nat) (iv iv' : Interval),
      ivs !! k = Some iv -> ivs !! S k = Some iv' ->
      String.leb (iv_end iv) (iv_start iv') = true.
Proof.
  assert (H : forall (i j : nat) (a b : PointResult),
     (i <= j)%nat -> [point "t1" true; point "t2" true; point "t3" false] !! i = Some a ->
     [point "t1" true; point "t2" true; point "t3" false] !! j = Some b ->
     String.leb (timestamp a) (timestamp b) = true).
  { intros i j a b Hij Ha Hb.
    destruct i as [|[|[|i]]]; destruct j as [|[|[|j]]]; try lia;
      cbn in Ha, Hb; try discriminate;
      injection Ha as <-; injection Hb as <-; reflexivity. }
  split; [exact H|].
  apply (extract_intervals_ordered (fun a b => String.leb a b = true)
           [point "t1" true; point "t2" true; point "t3" false] H).
Defined.

(** ** The point scorer and [detect] *)

Lemma zip4_lookup {A B C D : Type} (a : list A) (b : list B) (c : list C)
    (d : list D) (i : nat) (t : A * B * C * D) :
  zip4 a b c d !! i = Some t <->
  a !! i = Some (fst (fst (fst t))) /\ b !! i = Some (snd (fst (fst t))) /\
  c !! i = Some (snd (fst t)) /\ d !! i = Some (snd t).
Proof.
  revert b c d i. induction a as [|x a IH]; intros b c d i.
  - cbn. split; [discriminate|intros [H _]; discriminate].
  - destruct b as [|y b]; [cbn; split; [discriminate|intros (_ & H & _); discriminate]|].
    destruct c as [|z c]; [cbn; split; [discriminate|intros (_ & _ & H & _); discriminate]|].
    destruct d as [|w d]; [cbn; split; [discriminate|intros (_ & _ & _ & H); discriminate]|].
    cbn [zip4]. destruct i as [|i].
    + cbn. destruct t as [[[t1 t2] t3] t4]. cbn. split.
      * intros H. injection H as <- <- <- <-. repeat split.
      * intros (H1 & H2 & H3 & H4). congruence.
    + cbn. apply IH.
Qed.

Lemma zip4_length {A B C D : Type} (a : list A) (b : list B) (c : list C)
    (d : list D) :
  length (zip4 a b c d) =
  Nat.min (length a) (Nat.min (length b) (Nat.min (length c) (length d))).
Proof.
  revert b c d. induction a as [|x a IH]; intros b c d; [reflexivity|].
  destruct b as [|y b]; [reflexivity|]. destruct c as [|z c]; [reflexivity|].
  destruct d as [|w d]; [cbn; lia|]. cbn [zip4 length]. rewrite IH. lia.
Qed.

Lemma extract_interval_ends (pr : list PointResult) :
  exists runs : list (nat * nat),
    _extract_anomaly_intervals pr = Ok (map (interval_of pr) runs) /\
    forall (k : nat) (r : nat * nat), runs !! k = Some r ->
      exists a b : PointResult,
        pr !! fst r = Some a /\ pr !! snd r = Some b /\
        interval_of pr r = mkInterval (timestamp a) (timestamp b).
Proof.
  destruct (extract_runs_facts pr) as (runs & _ & Hout & _ & Hmax & _).
  exists runs. split; [exact Hout|]. intros k [s e] Hk. cbn [fst snd].
  destruct (Hmax s e (lookup_In runs k (s, e) Hk)) as (Hb & _).
  destruct (lookup_lt_is_Some_2 pr s ltac:(lia)) as [a Ha].
  destruct (lookup_lt_is_Some_2 pr e ltac:(lia)) as [b Hb'].
  exists a, b. split; [exact Ha|]. split; [exact Hb'|].
  unfold interval_of, timestamp_at. cbn [fst snd]. rewrite Ha, Hb'. reflexivity.
Qed.

Section ScorerProperties.

Variable sort_values : list DataPoint -> list DataPoint.

Variable IsolationForest :
  forall (n_estimators : Z) (contamination : float) (random_state : Z)
         (max_samples : string + Z) (values : list float),
    pyresult (list Z * list float).

(** X12: [run_isolation_forest] calls the library once, with 200
    estimators, "auto" samples and the caller's contamination and seed, on
    the column of values in row order; its i-th result carries the
    timestamp and value of the i-th row with the i-th score, flagged
    exactly when the i-th label is -1; and it has as many results as the
    shortest of the rows, the scores and the labels. *)
Theorem run_isolation_forest_results (rs : list DataPoint) (c : float) (seed : Z)
    (labels : list Z) (scores : list float) :
  IsolationForest 200 c seed (inl "auto") (map dp_value rs) = Ok (labels, scores) ->
  exists res : list PointAnomaly,
    run_isolation_forest IsolationForest (mkDataFrame ["timestamp"; "value"] rs) c seed
      = Ok res /\
    length res = Nat.min (length rs) (Nat.min (length scores) (length labels)) /\
    forall (i : nat) (a : PointAnomaly),
      res !! i = Some a <->
      exists (p : DataPoint) (s : float) (l : Z),
        rs !! i = Some p /\ scores !! i = Some s /\ labels !! i = Some l /\
        a = mkPointAnomaly (dp_timestamp p) (dp_value p) s (l =? -1).
Proof.
  intros Hlib. unfold run_isolation_forest, detect_point_anomalies, getcol.
  cbn [columns rows existsb String.eqb Ascii.eqb Bool.eqb orb bind].
  rewrite Hlib. cbn [bind]. eexists. split; [reflexivity|]. split.
  - rewrite length_map, zip4_length, !length_map. lia.
  - intros i a. rewrite lookup_map. split.
    + destruct (zip4 _ _ _ _ !! i) as [[[[ts v] s] l]|] eqn:Hz; cbn; [|discriminate].
      intros H. injection H as <-. apply zip4_lookup in Hz. cbn [fst snd] in Hz.
      destruct Hz as (Hts & Hv & Hs & Hl). rewrite lookup_map in Hts. rewrite lookup_map in Hv.
      destruct (rs !! i) as [p|]; cbn in Hts, Hv; [|discriminate].
      injection Hts as <-. injection Hv as <-. exists p, s, l. repeat split; assumption.
    + intros (p & s & l & Hp & Hs & Hl & ->).
      assert (Hz : zip4 (map dp_timestamp rs) (map dp_value rs) scores labels !! i
                   = Some (dp_timestamp p, dp_value p, s, l)).
      { apply zip4_lookup. cbn [fst snd]. rewrite !lookup_map, Hp. repeat split; assumption. }
      rewrite Hz. reflexivity.
Qed.

(** X13: once the scorer has returned on a non-empty series, [detect]
    returns a response: the aggregator and the extractor do not fail.  The
    response echoes the request's metadata and holds at most as many
    intervals as there are scored points. *)
Theorem detect_returns_after_scoring (req : DetectRequest) (pj : list PointResult) :
  data req <> [] ->
  scored_points sort_values IsolationForest req = Ok pj ->
  exists (log : list component) (resp : DetectResponse),
    detect sort_values IsolationForest req = (log, Ok resp) /\
    resp_metadata resp = metadata req /\
    (length (anomalies resp) <= length pj)%nat.
Proof.
  intros Hne Hpj. rewrite (detect_nonempty sort_values IsolationForest req Hne), Hpj.
  cbn [call tbind]. destruct (detect_after_scoring_spec req pj) as (seg & _ & Hrest).
  destruct (is_segment_anomaly seg).
  - destruct Hrest as (ivs & Hivs & Hafter). rewrite Hafter.
    eexists _, _. split; [reflexivity|]. cbn [resp_metadata anomalies].
    split; [reflexivity|]. rewrite length_map. apply extract_length_le, Hivs.
  - rewrite Hrest. eexists _, _. split; [reflexivity|]. cbn. split; [reflexivity|lia].
Qed.

Lemma detect_response_anomalies (req : DetectRequest) (log : list component)
    (resp : DetectResponse) :
  detect sort_values IsolationForest req = (log, Ok resp) ->
  exists pj : list PointResult,
    scored_points sort_values IsolationForest req = Ok pj /\
    ((exists ivs : list Interval,
        _extract_anomaly_intervals pj = Ok ivs /\
        anomalies resp = map (fun iv => mkAnomaly (iv_start iv) (iv_end iv)) ivs) \/
     anomalies resp = []).
Proof.
  intros Hdet. destruct (data req) as [|p l] eqn:Hdata.
  - unfold detect in Hdet. rewrite Hdata in Hdet. discriminate.
  - rewrite detect_nonempty in Hdet by congruence.
    apply detect_handlers_ok in Hdet.
    destruct (scored_points sort_values IsolationForest req) as [pj|e|] eqn:Hpj;
      cbn [call tbind] in Hdet; try discriminate.
    exists pj. split; [reflexivity|].
    destruct (detect_after_scoring_spec req pj) as (seg & _ & Hrest).
    destruct (is_segment_anomaly seg).
    + destruct Hrest as (ivs & Hivs & Hafter). rewrite Hafter in Hdet.
      injection Hdet as <- <-. left. exists ivs. split; [exact Hivs|reflexivity].
    + rewrite Hrest in Hdet. injection Hdet as <- <-. right. reflexivity.
Qed.

(** X14: the intervals of a response are made of timestamps of the
    request: when the sort returns only rows it was given, both ends of
    every anomaly are timestamps of observations in [data]. *)
Theorem response_timestamps_from_request (req : DetectRequest)
    (log : list component) (resp : DetectResponse) :
  (forall (l : list DataPoint) (p : DataPoint), In p (sort_values l) -> In p l) ->
  detect sort_values IsolationForest req = (log, Ok resp) ->
  Forall (fun a => In (start a) (map dp_timestamp (data req)) /\
                   In (end_ a) (map dp_timestamp (data req)))
         (anomalies resp).
Proof.
  intros Hsort Hdet.
  destruct (detect_response_anomalies req log resp Hdet) as (pj & Hpj & Hcases).
  assert (Hts : forall (i : nat) (p : PointResult), pj !! i = Some p ->
            In (timestamp p) (map dp_timestamp (data req))).
  { intros i p Hp. unfold scored_points in Hpj.
    destruct (run_isolation_forest IsolationForest _ _ _) as [res|e|] eqn:Hres;
      cbn [bind] in Hpj; try discriminate.
    injection Hpj as <-. unfold anomalies_to_json in Hp. rewrite lookup_map in Hp.
    destruct (res !! i) as [a|] eqn:Ha; cbn in Hp; [|discriminate]. injection Hp as <-.
    cbn [timestamp].
    unfold run_isolation_forest, detect_point_anomalies, getcol in Hres.
    cbn [columns rows existsb String.eqb Ascii.eqb Bool.eqb orb bind] in Hres.
    destruct (IsolationForest 200 _ _ _ _) as [[labels scores]|e|];
      cbn [bind] in Hres; try discriminate.
    injection Hres as <-. rewrite lookup_map in Ha.
    destruct (zip4 _ _ _ _ !! i) as [[[[ts v] s] l]|] eqn:Hz; cbn in Ha; [|discriminate].
    injection Ha as <-. cbn [pa_timestamp].
    apply zip4_lookup in Hz. cbn [fst snd] in Hz. destruct Hz as (Hz & _).
    rewrite lookup_map in Hz.
    destruct (sort_values (data req) !! i) as [q|] eqn:Hq; cbn in Hz; [|discriminate].
    injection Hz as <-. apply in_map, Hsort. apply (lookup_In _ i). exact Hq. }
  destruct Hcases as [(ivs & Hivs & ->)| ->]; [|constructor].
  destruct (extract_interval_ends pj) as (runs & Hout & Hruns).
  rewrite Hout in Hivs. injection Hivs as <-.
  apply Forall_forall. intros a Ha. apply list_elem_of_In in Ha.
  apply in_map_iff in Ha. destruct Ha as (iv & <- & Hiv).
  apply in_map_iff in Hiv. destruct Hiv as ([s e] & <- & Hin).
  apply In_lookup in Hin. destruct Hin as [k Hk].
  destruct (Hruns k (s, e) Hk) as (a & b & Ha & Hb & Heq). cbn [fst snd] in Ha, Hb.
  cbn [start end_]. rewrite Heq. cbn [iv_start iv_end].
  split; [apply (Hts s a Ha)|apply (Hts e b Hb)].
Qed.

End ScorerProperties.

Lemma run_isolation_forest_results_witness :
  threshold_forest 200 f64_0_05 42 (inl "auto") (map dp_value (data sample_request)) =
    Ok ([-1; 1; -1; 1], [SFopp f64_0_05; f64_0_05; SFopp f64_0_05; f64_0_05]) /\
  exists res : list PointAnomaly,
    run_isolation_forest threshold_forest
      (mkDataFrame ["timestamp"; "value"] (data sample_request)) f64_0_05 42 = Ok res /\
    length res = Nat.min (length (data sample_request))
                   (Nat.min (length [SFopp f64_0_05; f64_0_05; SFopp f64_0_05; f64_0_05])
                            (length [-1; 1; -1; 1])) /\
    forall (i : nat) (a : PointAnomaly),
      res !! i = Some a <->
      exists (p : DataPoint) (s : float) (l : Z),
        data sample_request !! i = Some p /\
        [SFopp f64_0_05; f64_0_05; SFopp f64_0_05; f64_0_05] !! i = Some s /\
        [-1; 1; -1; 1] !! i = Some l /\
        a = mkPointAnomaly (dp_timestamp p) (dp_value p) s (l =? -1).
Proof.
  split; [vm_compute; reflexivity|].
  apply (run_isolation_forest_results threshold_forest (data sample_request) f64_0_05 42).
  vm_compute. reflexivity.
Defined.

Lemma detect_returns_after_scoring_witness :
  data sample_request <> [] /\
  exists pj : list PointResult,
    scored_points sort_by_timestamp threshold_forest sample_request = Ok pj /\
    exists (log : list component) (resp : DetectResponse),
      detect sort_by_timestamp threshold_forest sample_request = (log, Ok resp) /\
      resp_metadata resp = metadata sample_request /\
      (length (anomalies resp) <= length pj)%nat.
Proof.
  split; [discriminate|]. eexists. split; [vm_compute; reflexivity|].
  apply (detect_returns_after_scoring sort_by_timestamp threshold_forest sample_request).
  - discriminate.
  - vm_compute. reflexivity.
Defined.

(** The sample sort returns only rows it was given. *)
Lemma insert_by_timestamp_In (p q : DataPoint) (l : list DataPoint) :
  In p (insert_by_timestamp q l) -> p = q \/ In p l.
Proof.
  induction l as [|x l IH]; cbn [insert_by_timestamp].
  - intros [<-|[]]. left. reflexivity.
  - destruct (String.leb (dp_timestamp q) (dp_timestamp x)).
    + intros [<-|H]; [left; reflexivity|right; exact H].
    + intros [<-|H]; [right; left; reflexivity|].
      destruct (IH H) as [->|Hin]; [left; reflexivity|right; right; exact Hin].
Qed.

Lemma sort_by_timestamp_In (l : list DataPoint) (p : DataPoint) :
  In p (sort_by_timestamp l) -> In p l.
Proof.
  unfold sort_by_timestamp. induction l as [|x l IH]; cbn [fold_right]; [tauto|].
  intros H. apply insert_by_timestamp_In in H. destruct H as [->|H].
  - left. reflexivity.
  - right. apply IH. exact H.
Qed.

Lemma response_timestamps_from_request_witness :
  (forall (l : list DataPoint) (p : DataPoint), In p (sort_by_timestamp l) -> In p l) /\
  detect sort_by_timestamp threshold_forest sample_request =
    ([PointScorer; SegmentAggregator; IntervalExtractor],
     Ok {| resp_metadata := metadata sample_request;
           anomalies := [mkAnomaly "2025-01-01T00:02" "2025-01-01T00:03"] |}) /\
  Forall (fun a => In (start a) (map dp_timestamp (data sample_request)) /\
                   In (end_ a) (map dp_timestamp (data sample_request)))
         (anomalies {| resp_metadata := metadata sample_request;
                       anomalies := [mkAnomaly "2025-01-01T00:02" "2025-01-01T00:03"] |}).
Proof.
  split; [exact sort_by_timestamp_In|]. split; [vm_compute; reflexivity|].
  apply (response_timestamps_from_request sort_by_timestamp threshold_forest sample_request
           [PointScorer; SegmentAggregator; IntervalExtractor]).
  - exact sort_by_timestamp_In.
  - vm_compute. reflexivity.
Defined.

(** ** The default thresholds *)

Lemma quot_log2_unique (a b e : Z) :
  0 < a <= b -> e <= 0 -> b <= a * 2 ^ (- e) < 2 * b -> quot_log2 a b = e.
Proof.
  intros Hab He [Hlo Hhi].
  pose proof (quot_log2_spec a b Hab) as (He' & Hlo' & Hhi').
  set (e' := quot_log2 a b) in *.
  destruct (Z.lt_trichotomy e' e) as [Hlt|[Heq|Hgt]]; [exfalso|exact Heq|exfalso].
  - assert (Hs : 2 ^ (- e') = 2 ^ (- e) * 2 ^ (e - e')).
    { rewrite <- Z.pow_add_r by lia. f_equal; lia. }
    assert (2 ^ 1 <= 2 ^ (e - e')) by (apply Z.pow_le_mono_r; lia).
    assert (0 < 2 ^ (- e)) by (apply Z.pow_pos_nonneg; lia).
    change (2 ^ 1) with 2 in *. rewrite Hs in Hhi'. nia.
  - assert (Hs : 2 ^ (- e) = 2 ^ (- e') * 2 ^ (e' - e)).
    { rewrite <- Z.pow_add_r by lia. f_equal; lia. }
    assert (2 ^ 1 <= 2 ^ (e' - e)) by (apply Z.pow_le_mono_r; lia).
    assert (0 < 2 ^ (- e')) by (apply Z.pow_pos_nonneg; lia).
    change (2 ^ 1) with 2 in *. rewrite Hs in Hhi. nia.
Qed.

(** The quotient depends on the fraction only: a common factor of the two
    integers does not change it. *)
Lemma int_truediv_scale (a b k : Z) :
  0 < a <= b -> 0 < k -> int_truediv (a * k) (b * k) = int_truediv a b.
Proof.
  intros Hab Hk. rewrite !int_truediv_pos by nia.
  pose proof (quot_log2_spec a b Hab) as (He & Hlo & Hhi).
  assert (Hq : quot_log2 (a * k) (b * k) = quot_log2 a b).
  { apply quot_log2_unique; [nia|exact He|].
    assert (0 < 2 ^ (- quot_log2 a b)) by (apply Z.pow_pos_nonneg; lia). nia. }
  assert (Hexp : div_exp (a * k) (b * k) = div_exp a b) by (unfold div_exp; rewrite Hq; reflexivity).
  rewrite Hexp. do 2 f_equal. unfold div_mant. rewrite Hexp.
  replace (a * k * 2 ^ (- div_exp a b)) with (a * 2 ^ (- div_exp a b) * k) by ring.
  apply rne_div_scale; lia.
Qed.

Lemma one_fifth_is_default : int_truediv 1 5 = Ok DEFAULT_RATIO_THRESHOLD.
Proof. reflexivity. Qed.

(** Against the default 0.20 the comparison of the rounded ratio is exact:
    it holds exactly when at least one point in five is flagged. *)
Lemma ratio_ge_default_iff (c t : Z) (ratio : float) :
  0 <= c <= t -> 0 < t <= 2 ^ 53 ->
  int_truediv c t = Ok ratio ->
  float_ge ratio DEFAULT_RATIO_THRESHOLD = true <-> t <= 5 * c.
Proof.
  intros Hc Ht Hr. split.
  - intros Hge. destruct (Z.le_gt_cases t (5 * c)) as [Hle|Hlt]; [exact Hle|exfalso].
    destruct (Z.eq_dec c 0) as [->|Hc0].
    { rewrite int_truediv_zero in Hr by lia. injection Hr as <-. discriminate Hge. }
    destruct (int_truediv_canonical c t) as (x & Hx & Hcan & _); [lia..|].
    rewrite Hr in Hx. injection Hx as <-.
    assert (Hcan02 : nonneg_canonical DEFAULT_RATIO_THRESHOLD) by (cbn; lia).
    unfold float_ge in Hge. fold (float_le DEFAULT_RATIO_THRESHOLD ratio) in Hge.
    apply (le_canonical _ _ Hcan02 Hcan) in Hge.
    cbn [sf_val DEFAULT_RATIO_THRESHOLD f64_0_2] in Hge. change (-55 + 1074) with 1019 in Hge.
    assert (Hsmall : t < 2 ^ 1022).
    { assert (2 ^ 53 < 2 ^ 1022) by (apply Z.pow_lt_mono_r; lia). lia. }
    destruct (int_truediv_nearest c t ratio ltac:(lia) Hr) as [_ Hrel].
    specialize (Hrel Hsmall). clear Hsmall.
    assert (Hs : 2 ^ 1074 = 2 ^ 55 * 2 ^ 1019) by (rewrite <- Z.pow_add_r by lia; f_equal).
    rewrite Hs in Hrel. clear Hs.
    assert (Hq : 0 < 2 ^ 1019) by (apply Z.pow_pos_nonneg; lia).
    change (2 ^ 53) with 9007199254740992 in *.
    change (2 ^ 55) with 36028797018963968 in *.
    remember (2 ^ 1019) as Q eqn:EQ. clear EQ.
    remember (sf_val ratio) as V eqn:EV. clear EV Hcan.
    assert (Hb : 9007199254740992 * (V * t - c * (36028797018963968 * Q))
                 <= c * (36028797018963968 * Q)) by lia.
    assert (H1 : 9007199254740992 * (7205759403792794 * Q) * t
                 <= 9007199254740992 * V * t) by nia.
    assert (H2 : (9007199254740992 * 7205759403792794 * t) * Q
                 <= (c * 36028797018963968 * 9007199254740993) * Q) by lia.
    apply Z.mul_le_mono_pos_r in H2; [|exact Hq]. lia.
  - intros Hle. assert (Hc0 : 0 < c) by lia.
    unfold float_ge. fold (float_le DEFAULT_RATIO_THRESHOLD ratio).
    apply (int_truediv_mono t (5 * c) (5 * t)); try lia.
    + replace t with (1 * t) at 1 by ring. rewrite (int_truediv_scale 1 5 t) by lia.
      exact one_fifth_is_default.
    + rewrite (Z.mul_comm 5 c), (Z.mul_comm 5 t), int_truediv_scale by lia. exact Hr.
Qed.

(** X15: with the default thresholds (0.20 and 20) and at most [2^53]
    points, a non-empty sequence is anomalous exactly when at least one
    point in five is flagged or 20 consecutive points are flagged: the
    rounding of the ratio and of the literal 0.20 does not move the
    boundary. *)
Theorem default_verdict (pr : list PointResult) :
  pr <> [] -> len pr <= 2 ^ 53 ->
  exists seg : SegmentSummary,
    _segment_summary pr DEFAULT_RATIO_THRESHOLD DEFAULT_STREAK_THRESHOLD = Ok seg /\
    (is_segment_anomaly seg = true <->
     len pr <= 5 * count_flagged pr \/ exists s : nat, flagged_run pr s 20).
Proof.
  intros Hne Hlen.
  destruct (segment_summary_nonempty pr DEFAULT_RATIO_THRESHOLD DEFAULT_STREAK_THRESHOLD Hne)
    as (ratio & Hr & _ & Hseg).
  pose proof (len_pos pr Hne) as Hpos. pose proof (count_flagged_bounds pr) as Hc.
  eexists. split; [exact Hseg|]. cbn [is_segment_anomaly].
  rewrite orb_true_iff, (ratio_ge_default_iff (count_flagged pr) (len pr) ratio) by (try lia; exact Hr).
  rewrite Z.geb_le. unfold DEFAULT_STREAK_THRESHOLD.
  change 20 with (Z.of_nat 20). rewrite (max_streak_run_iff pr 20) by lia. reflexivity.
Qed.

Lemma default_verdict_witness :
  sample_fifth <> [] /\ len sample_fifth <= 2 ^ 53 /\
  exists seg : SegmentSummary,
    _segment_summary sample_fifth DEFAULT_RATIO_THRESHOLD DEFAULT_STREAK_THRESHOLD = Ok seg /\
    (is_segment_anomaly seg = true <->
     len sample_fifth <= 5 * count_flagged sample_fifth \/
     exists s : nat, flagged_run sample_fifth s 20).
Proof.
  split; [discriminate|]. split; [vm_compute; discriminate|].
  apply (default_verdict sample_fifth); [discriminate|vm_compute; discriminate].
Defined.

(** ** The webhook relay *)

Lemma lastn_short {A : Type} (n : nat) (l : list A) :
  (length l <= n)%nat -> Relay.lastn n l = l.
Proof.
  intros H. unfold Relay.lastn. replace (length l - n)%nat with 0%nat by lia. reflexivity.
Qed.

Lemma lastn_length {A : Type} (n : nat) (l : list A) :
  length (Relay.lastn n l) = Nat.min n (length l).
Proof. unfold Relay.lastn. rewrite length_drop. lia. Qed.

(** Storing into the last 100 of a history gives the last 100 of the
    longer history. *)
Lemma store_lastn (l : list Relay.alert_record) (r : Relay.alert_record) :
  Relay.store (Relay.lastn 100 l) r = Relay.lastn 100 (l ++ [r]).
Proof.
  unfold Relay.store. rewrite length_app, lastn_length. cbn [length].
  destruct (Nat.le_gt_cases (length l) 99) as [Hshort|Hlong].
  - destruct (Nat.ltb_spec 100 (Nat.min 100 (length l) + 1)) as [H|H]; [lia|].
    rewrite (lastn_short 100 l) by lia.
    rewrite lastn_short by (rewrite length_app; cbn [length]; lia). reflexivity.
  - destruct (Nat.ltb_spec 100 (Nat.min 100 (length l) + 1)) as [H|H]; [|lia].
    unfold Relay.lastn. rewrite length_app. cbn [length].
    replace (length l + 1 - 100)%nat with (S (length l - 100)) by lia.
    rewrite (drop_app_le l [r] (S (length l - 100))) by lia.
    destruct (drop (length l - 100) l) as [|x rest] eqn:Hd.
    + apply (f_equal length) in Hd. rewrite length_drop in Hd. cbn in Hd. lia.
    + cbn [app tail]. f_equal.
      assert (Hx : l !! (length l - 100)%nat = Some x).
      { rewrite <- (Nat.add_0_r (length l - 100)), <- lookup_drop, Hd. reflexivity. }
      rewrite (drop_S l x _ Hx) in Hd. injection Hd as <-. reflexivity.
Qed.

(** What a request does to the buffer: it stores the record it leaves, if
    it leaves one. *)
Lemma handle_buffer (st : list Relay.alert_record) (req : Relay.request) :
  fst (Relay.handle st req) = fold_left Relay.store (Relay.accepted req) st.
Proof.
  unfold Relay.handle, Relay.accepted, Relay.do_POST, Relay.do_GET.
  destruct (Relay.req_method req).
  - destruct (String.eqb (Relay.path req) "/alerts");
      [destruct (Relay.dumped req); reflexivity|].
    destruct (String.eqb (Relay.path req) "/health"); [reflexivity|].
    destruct (String.eqb (Relay.path req) "/"); reflexivity.
  - destruct (String.eqb (Relay.path req) "/v1/integrations/alertmanager/webhook");
      [|destruct (Relay.payload req); reflexivity].
    destruct (Relay.payload req) as [data|e]; [|reflexivity].
    destruct (Relay.echo req); [reflexivity|].
    destruct (Relay.print_summary data); reflexivity.
Qed.

Lemma run_from (reqs : list Relay.request) (l : list Relay.alert_record) :
  fold_left (fun st req => fst (Relay.handle st req)) reqs (Relay.lastn 100 l) =
  Relay.lastn 100 (l ++ flat_map Relay.accepted reqs).
Proof.
  revert l. induction reqs as [|req reqs IH]; intros l.
  - cbn. rewrite app_nil_r. reflexivity.
  - cbn [fold_left flat_map]. rewrite handle_buffer.
    assert (Hstep : fold_left Relay.store (Relay.accepted req) (Relay.lastn 100 l) =
                    Relay.lastn 100 (l ++ Relay.accepted req)).
    { unfold Relay.accepted.
      destruct (Relay.req_method req); [cbn; rewrite app_nil_r; reflexivity|].
      destruct (Relay.payload req) as [data|e]; [|cbn; rewrite app_nil_r; reflexivity].
      destruct (String.eqb _ _); [|cbn; rewrite app_nil_r; reflexivity].
      cbn [fold_left]. apply store_lastn. }
    rewrite Hstep, IH, app_assoc. reflexivity.
Qed.

(** X16: the relay keeps the most recent 100 alerts.  After any sequence
    of requests, handled in turn from an empty buffer, the buffer holds
    the last 100 of the records left by the POSTs to the webhook path whose
    body was read and parsed, oldest first; it never holds more than 100;
    and [GET /alerts] leaves it as it is, answering with the whole buffer
    when the buffer could be serialised and with headers only when the
    serialisation raised. *)
Theorem relay_buffer_is_last_100 (reqs : list Relay.request) :
  Relay.run reqs = Relay.lastn 100 (flat_map Relay.accepted reqs) /\
  (length (Relay.run reqs) <= 100)%nat /\
  forall (p : Relay.result Relay.json) (t : string) (out ser : option exn),
    Relay.handle (Relay.run reqs) (Relay.mkRequest Relay.GET "/alerts" p t out ser) =
    (Relay.run reqs,
     Relay.mkResponse 200 (Some "application/json")
       match ser with
       | None => Relay.AlertsJson (Relay.run reqs)
       | Some e => Relay.Uncaught e
       end).
Proof.
  assert (Hrun : Relay.run reqs = Relay.lastn 100 (flat_map Relay.accepted reqs)).
  { unfold Relay.run. change (@nil Relay.alert_record) with (Relay.lastn 100 (@nil Relay.alert_record)) at 1.
    rewrite run_from. reflexivity. }
  split; [exact Hrun|]. split; [rewrite Hrun, lastn_length; lia|].
  intros p t out [e|]; reflexivity.
Qed.

Lemma has_alerts_key (kv : list (string * Relay.json)) :
  existsb (fun p => String.eqb (fst p) "alerts") kv =
  match Relay.dict_get kv "alerts" with Some _ => true | None => false end.
Proof.
  unfold Relay.dict_get. induction kv as [|[k v] kv IH]; [reflexivity|].
  cbn [existsb List.find fst]. destruct (String.eqb k "alerts"); [reflexivity|exact IH].
Qed.

Lemma summarize_alert_ok (alert : Relay.json) :
  (exists line, Relay.summarize_alert alert = Relay.Return line) <-> Relay.alert_shaped alert.
Proof.
  unfold Relay.summarize_alert, Relay.alert_shaped.
  destruct alert as [| | | | | |kv]; cbn [Relay.py_get Relay.rbind];
    try (split; [intros [line H]; discriminate|tauto]).
  destruct (Relay.dict_get kv "labels") as [[| | | | | |kv']|];
    cbn [Relay.py_get Relay.rbind];
    try (split; [intros [line H]; discriminate|tauto]);
    (split; [tauto|intros _; eexists; reflexivity]).
Qed.

Lemma summarize_alerts_ok (alerts : list Relay.json) :
  (exists lines, Relay.summarize_alerts alerts = Relay.Return lines) <->
  Forall Relay.alert_shaped alerts.
Proof.
  induction alerts as [|a alerts IH].
  - split; [constructor|intros _; eexists; reflexivity].
  - cbn [Relay.summarize_alerts]. split.
    + intros [lines H].
      destruct (Relay.summarize_alert a) as [line|e] eqn:Ha; cbn [Relay.rbind] in H; [|discriminate].
      destruct (Relay.summarize_alerts alerts) as [ls|e] eqn:Hls; cbn [Relay.rbind] in H; [|discriminate].
      constructor; [apply summarize_alert_ok; eexists; exact Ha|].
      apply IH. eexists. reflexivity.
    + intros Hall. inversion Hall as [|x xs Hx Hxs]; subst.
      apply summarize_alert_ok in Hx. destruct Hx as [line Hline].
      apply IH in Hxs. destruct Hxs as [ls Hls].
      rewrite Hline, Hls. eexists. reflexivity.
Qed.

(** The summary is printed without an exception exactly on the printable
    payloads. *)
Lemma print_summary_ok (data : Relay.json) :
  (exists lines, Relay.print_summary data = Relay.Return lines) <-> Relay.printable data.
Proof.
  unfold Relay.print_summary, Relay.printable.
  destruct data as [|b|z|f|s|l|kv]; cbn [Relay.contains_alerts Relay.rbind];
    try (split; [intros [lines H]; discriminate|tauto]).
  - destruct (Relay.contains "alerts" s); cbn [Relay.getitem_alerts Relay.rbind].
    + split; [intros [lines H]; discriminate|discriminate].
    + split; [reflexivity|intros _; eexists; reflexivity].
  - destruct (existsb Relay.is_alerts_str l); cbn [Relay.getitem_alerts Relay.rbind].
    + split; [intros [lines H]; discriminate|discriminate].
    + split; [reflexivity|intros _; eexists; reflexivity].
  - rewrite has_alerts_key. cbn [Relay.getitem_alerts].
    destruct (Relay.dict_get kv "alerts") as [v|]; [|split; [tauto|intros _; eexists; reflexivity]].
    cbn [Relay.rbind].
    destruct v as [|b|z|f|s|l|kv']; cbn [Relay.iterate Relay.rbind];
      try (split; [intros [lines H]; discriminate|tauto]).
    + destruct s as [|c s].
      * split; [reflexivity|intros _; eexists; reflexivity].
      * cbn. split; [intros [lines H]; discriminate|discriminate].
    + apply summarize_alerts_ok.
    + destruct kv' as [|[k v] kv'].
      * split; [reflexivity|intros _; eexists; reflexivity].
      * cbn. split; [intros [lines H]; discriminate|discriminate].
Qed.

(** X17: a POST to the webhook path whose body was read and parsed is
    stored as the newest record of the buffer before anything is printed:
    the answer is 200 exactly when the echo to the console succeeds and the
    payload is printable, and 400 otherwise, and the record is stored in
    both cases; a body that could not be read or parsed is answered 400
    with the text of the exception and leaves the buffer as it was. *)
Theorem relay_post_stores_then_answers (st : list Relay.alert_record)
    (p : Relay.result Relay.json) (t : string) (out ser : option exn) :
  let req :=
    Relay.mkRequest Relay.POST "/v1/integrations/alertmanager/webhook" p t out ser in
  match p with
  | Relay.Return data =>
      fst (Relay.handle st req) = Relay.store st (Relay.mkAlertRecord t data) /\
      last (fst (Relay.handle st req)) = Some (Relay.mkAlertRecord t data) /\
      (Relay.status_code (snd (Relay.handle st req)) = 200 <->
         out = None /\ Relay.printable data) /\
      (Relay.status_code (snd (Relay.handle st req)) = 400 <->
         ~ (out = None /\ Relay.printable data))
  | Relay.Except e =>
      Relay.handle st req = (st, Relay.error_response e)
  end.
Proof.
  intros req. destruct p as [data|e]; [|reflexivity].
  unfold req, Relay.handle, Relay.do_POST.
  cbn [Relay.req_method Relay.path Relay.payload Relay.now Relay.echo].
  rewrite String.eqb_refl.
  pose proof (print_summary_ok data) as Hok.
  assert (Hlast : last (Relay.store st (Relay.mkAlertRecord t data))
                  = Some (Relay.mkAlertRecord t data)).
  { unfold Relay.store. rewrite length_app. cbn [length].
    destruct (Nat.ltb_spec 100 (length st + 1)) as [H|H]; [|apply last_snoc].
    destruct st as [|x st]; [cbn in H; lia|]. cbn [app tail]. apply last_snoc. }
  destruct out as [e|].
  { cbn [fst snd Relay.status_code Relay.error_response].
    split; [reflexivity|]. split; [exact Hlast|].
    split; split; intros H; try discriminate; try reflexivity.
    - destruct H as [H _]. discriminate.
    - intros [H' _]. discriminate. }
  destruct (Relay.print_summary data) as [lines|e] eqn:Hsum;
    cbn [fst snd Relay.status_code Relay.error_response].
  - split; [reflexivity|]. split; [exact Hlast|].
    assert (Relay.printable data) by (apply Hok; eexists; reflexivity).
    split; split; intros; try tauto; try discriminate.
  - split; [reflexivity|]. split; [exact Hlast|].
    assert (~ Relay.printable data).
    { intros Hp. apply Hok in Hp. destruct Hp as [lines H]. discriminate. }
    split; split; intros; try tauto; try discriminate.
Qed.

(** A number as payload: answered 400, and stored. *)
Example relay_stores_unprintable_payload :
  Relay.handle [] (Relay.mkRequest Relay.POST "/v1/integrations/alertmanager/webhook"
                     (Relay.Return (Relay.JInt 5)) "2025-01-01T00:00:00" None None) =
  ([Relay.mkAlertRecord "2025-01-01T00:00:00" (Relay.JInt 5)],
   Relay.mkResponse 400 (Some "application/json")
     (Relay.StatusMessage "error" "argument of type 'int' is not iterable")).
Proof. reflexivity. Qed.
